(** * Service dashboard: server actions and debounced filter

    A shallow embedding of the server actions of [src/actions/services.ts]
    ([createService], [getServices], [getService], [updateService],
    [deleteService]) and of the debounced search effect of
    [service-filters.tsx] ([ServiceFilters]), with the properties of the
    specification stated and proved over them.

    Conventions.
    - A JavaScript string is a [string]: a sequence of code units, here the
      code units 0..255.
    - A [Date] is its time value in milliseconds, a [Z].
    - An [async] function is a state transformer over a [World] that may
      complete normally or throw; [try]/[catch] is a combinator of that
      monad.
    - The ORM client ([prisma.service.*]) is a library outside the
      repository; what the actions rely on is written out under "The
      persistence layer", from the schema shown in the README and the
      documented behaviour of the client. *)

From Stdlib Require Import List Bool Arith ZArith NArith Lia.
From Stdlib Require Import Ascii String.
From Stdlib Require Import Sorting.Sorted Sorting.Permutation.
Import ListNotations.

Local Open Scope string_scope.
Local Open Scope Z_scope.

(* ================================================================= *)
(** ** JavaScript primitives used by the actions *)

Module JS.

(** [WhiteSpace] and [LineTerminator] code units below 256: TAB, LF, VT,
    FF, CR, SP and NBSP. These are what [String.prototype.trim] and
    [parseFloat] strip. *)
Definition isWhiteSpace (c : ascii) : bool :=
  match nat_of_ascii c with
  | 9%nat | 10%nat | 11%nat | 12%nat | 13%nat | 32%nat | 160%nat => true
  | _ => false
  end.

Fixpoint trimStart (s : string) : string :=
  match s with
  | EmptyString => EmptyString
  | String c s' => if isWhiteSpace c then trimStart s' else s
  end.

Fixpoint trimEnd (s : string) : string :=
  match s with
  | EmptyString => EmptyString
  | String c s' =>
      match trimEnd s' with
      | EmptyString => if isWhiteSpace c then EmptyString else String c EmptyString
      | t => String c t
      end
  end.

(** [s.trim()] *)
Definition trim (s : string) : string := trimEnd (trimStart s).

(** A value that is a string or [null]/[undefined]: what [FormData.get]
    returns and what an optional string parameter holds. *)
Definition nullable := option string.

(** [ToString] on such a value ([parseFloat] applies it to its argument). *)
Definition ToString (v : nullable) : string :=
  match v with
  | Some s => s
  | None => "null"
  end.

(** Truthiness of a string-or-null value: [null], [undefined] and the empty
    string are falsy. *)
Definition truthy (v : nullable) : bool :=
  match v with
  | Some EmptyString => false
  | Some _ => true
  | None => false
  end.

(** [v === lit] for a string literal [lit]. *)
Definition strict_eq (v : nullable) (lit : string) : bool :=
  match v with
  | Some s => String.eqb s lit
  | None => false
  end.

(** A JavaScript number as far as the actions look at it. A parsed decimal
    literal is kept as its exact value [(-1)^negative * mantissa * 10^exp10];
    the rounding to binary64 is not modelled (the code only tests [isNaN]). *)
Inductive number : Type :=
| NaN
| Infinity (negative : bool)
| Decimal (negative : bool) (mantissa : N) (exp10 : Z).

Definition isNaN (n : number) : bool :=
  match n with
  | NaN => true
  | _ => false
  end.

Definition isDigit (c : ascii) : bool :=
  let n := nat_of_ascii c in (48 <=? n)%nat && (n <=? 57)%nat.

Definition digitValue (c : ascii) : N := N.of_nat (nat_of_ascii c - 48).

(** The longest run of decimal digits at the front, with the rest. *)
Fixpoint spanDigits (s : string) : list ascii * string :=
  match s with
  | String c s' =>
      if isDigit c
      then let (ds, rest) := spanDigits s' in (c :: ds, rest)
      else ([], s)
  | EmptyString => ([], EmptyString)
  end.

Definition digitsValue (ds : list ascii) : N :=
  fold_left (fun acc c => (10 * acc + digitValue c)%N) ds 0%N.

(** An optional sign at the front. *)
Definition readSign (s : string) : bool * string :=
  match s with
  | String "+" s' => (false, s')
  | String "-" s' => (true, s')
  | _ => (false, s)
  end.

(** [ExponentPart]: [e] or [E], an optional sign and at least one digit;
    when it is not well formed it is not part of the literal. *)
Definition readExponent (s : string) : Z :=
  match s with
  | String c s' =>
      if (Ascii.eqb c "e" || Ascii.eqb c "E")%bool
      then let (neg, s'') := readSign s' in
           match spanDigits s'' with
           | ([], _) => 0
           | (ds, _) =>
               let v := Z.of_N (digitsValue ds) in if neg then - v else v
           end
      else 0
  | EmptyString => 0
  end.

(** [parseFloat(s)]: leading white space is skipped, then the longest prefix
    that is a [StrDecimalLiteral] is read; with no such prefix the result is
    [NaN]. *)
Definition parseFloat (input : string) : number :=
  let (neg, s) := readSign (trimStart input) in
  if String.prefix "Infinity" s then Infinity neg
  else
    let (ip, r1) := spanDigits s in
    let (fp, r2) :=
      match r1 with
      | String "." r => spanDigits r
      | _ => ([], r1)
      end in
    match (ip ++ fp)%list with
    | [] => NaN
    | ds => Decimal neg (digitsValue ds) (readExponent r2 - Z.of_nat (List.length fp))
    end.

End JS.

(* ================================================================= *)
(** ** Data model *)

(** The [id] of a document is the text of its ObjectId; it is kept as the
    number that text denotes. *)
Definition ObjectId := N.

(** [interface Service] (and [model Service] of the schema). *)
Record Service : Type := mkService {
  id : ObjectId;
  name : string;
  description : string;
  price : JS.number;
  isActive : bool;
  isFeatured : bool;
  createdAt : Z;
  updatedAt : Z
}.

(** [interface FilterActive { isActive: 'true' | 'false' | 'all' }]. The
    value comes from the URL through a cast, so at run time it is any text. *)
Module FilterActive.
Record t : Type := make { isActive : string }.
End FilterActive.

(** [FormData]: an ordered list of entries; [get] takes the first entry of
    a name and yields [null] when there is none. The entries are text, as
    the [as string] casts of the actions take them to be. *)
Definition FormData := list (string * string).

Fixpoint FormData_get (key : string) (fd : FormData) : JS.nullable :=
  match fd with
  | [] => None
  | (k, v) :: fd' => if String.eqb k key then Some v else FormData_get key fd'
  end.

(** The [as string] cast of a value the guard has shown to be a string. *)
Definition as_string (v : JS.nullable) : string :=
  match v with
  | Some s => s
  | None => EmptyString
  end.

(* ================================================================= *)
(** ** The world of a server action, and [async] code over it *)

Inductive Invalidation : Type :=
| Tag (tag : string)
| Path (path : string).

Record World : Type := mkWorld {
  services : list Service;        (* the collection, in its own order *)
  next_oid : ObjectId;            (* the next ObjectId the store assigns *)
  clock : Z;                      (* the time of the request, in ms *)
  reachable : bool;               (* does the persistence layer answer? *)
  console : list string;          (* what [console.error] has printed *)
  revalidated : list Invalidation (* [revalidateTag]/[revalidatePath] calls *)
}.

Inductive completion (A : Type) : Type :=
| Normal (a : A)
| Throw (error : string).
Arguments Normal {A} a.
Arguments Throw {A} error.

Definition Async (A : Type) : Type := World -> completion A * World.

Definition ret {A} (a : A) : Async A := fun w => (Normal a, w).

Definition bind {A B} (c : Async A) (k : A -> Async B) : Async B :=
  fun w =>
    match c w with
    | (Normal a, w') => k a w'
    | (Throw e, w') => (Throw e, w')
    end.

(** [try { body } catch (error) { handler }] *)
Definition try_catch {A} (body : Async A) (handler : string -> Async A) : Async A :=
  fun w =>
    match body w with
    | (Normal a, w') => (Normal a, w')
    | (Throw e, w') => handler e w'
    end.

Declare Scope async_scope.
Delimit Scope async_scope with async.
Notation "x <- c ;; k" := (bind c (fun x => k))
  (at level 61, c at next level, right associativity) : async_scope.
Notation "c ;; k" := (bind c (fun _ => k))
  (at level 61, right associativity) : async_scope.

Definition console_error (msg : string) : Async unit :=
  fun w =>
    (Normal tt,
     mkWorld (services w) (next_oid w) (clock w) (reachable w)
             (console w ++ [msg]) (revalidated w)).

Definition revalidate (i : Invalidation) : Async unit :=
  fun w =>
    (Normal tt,
     mkWorld (services w) (next_oid w) (clock w) (reachable w)
             (console w) (revalidated w ++ [i])).

Definition revalidateTag (tag : string) : Async unit := revalidate (Tag tag).
Definition revalidatePath (path : string) : Async unit := revalidate (Path path).

(** The collection replaced, the rest of the world kept. *)
Definition with_services (l : list Service) (n : ObjectId) (w : World) : World :=
  mkWorld l n (clock w) (reachable w) (console w) (revalidated w).

(* ================================================================= *)
(** ** The persistence layer

    [prisma.service.*] over a MongoDB collection, as the schema declares
    the model: [id] assigned by the store, [createdAt @default(now())],
    [updatedAt @updatedAt]. What is assumed of the client:
    - a call throws when the store does not answer ([reachable] is false);
    - [update] and [delete] throw when no document has the [id] (the
      client's "record not found" error), [findUnique] yields [null];
    - [create] stamps [createdAt] and [updatedAt] with the one time of the
      request;
    - [findMany] sorts by the keys of [orderBy] and by nothing else. *)

(** The [data] argument of [create] and [update]. *)
Record ServiceData : Type := mkData {
  d_name : string;
  d_description : string;
  d_price : JS.number;
  d_isActive : bool;
  d_isFeatured : bool
}.

(** One entry of the [OR] array of the [where] argument; both are
    [{ contains: s, mode: "insensitive" }] filters. *)
Inductive FieldFilter : Type :=
| NameContains (s : string)
| DescriptionContains (s : string).

(** The [whereClause] object of [getServices]: both keys optional. *)
Record WhereClause : Type := mkWhere {
  where_isActive : option bool;
  where_OR : option (list FieldFilter)
}.

Definition unavailable : string := "PrismaClientKnownRequestError: can't reach database server".
Definition not_found : string := "PrismaClientKnownRequestError: record not found (P2025)".

(** [needle] occurs in [hay] as a contiguous run. *)
Fixpoint includes (needle hay : string) : bool :=
  String.prefix needle hay ||
  match hay with
  | String _ hay' => includes needle hay'
  | EmptyString => false
  end.

Definition has_id (i : ObjectId) (r : Service) : bool := N.eqb (id r) i.

(** [orderBy: { createdAt: "desc" }]: the one sort key of the query.
    Documents with the same [createdAt] keep the order of the collection. *)
Fixpoint insert_desc (r : Service) (l : list Service) : list Service :=
  match l with
  | [] => [r]
  | x :: l' =>
      if createdAt x <=? createdAt r then r :: l else x :: insert_desc r l'
  end.

Definition orderBy_createdAt_desc (l : list Service) : list Service :=
  fold_right insert_desc [] l.

Section Persistence.

(** The case folding of a [mode: "insensitive"] filter, one code unit at
    a time; the properties below hold for any such folding. *)
Variable fold : ascii -> ascii.

Fixpoint foldCase (s : string) : string :=
  match s with
  | EmptyString => EmptyString
  | String c s' => String (fold c) (foldCase s')
  end.

(** [{ contains: needle, mode: "insensitive" }] on a field value. *)
Definition contains_insensitive (needle value : string) : bool :=
  includes (foldCase needle) (foldCase value).

Definition field_matches (r : Service) (f : FieldFilter) : bool :=
  match f with
  | NameContains s => contains_insensitive s (name r)
  | DescriptionContains s => contains_insensitive s (description r)
  end.

(** A document satisfies [where]: every key present must hold, and an
    [OR] array holds when one of its entries does. *)
Definition satisfies (wh : WhereClause) (r : Service) : bool :=
  match where_isActive wh with
  | Some b => Bool.eqb (isActive r) b
  | None => true
  end
  &&
  match where_OR wh with
  | Some fs => existsb (field_matches r) fs
  | None => true
  end.

(** [prisma.service.findMany({ where, orderBy: { createdAt: "desc" } })] *)
Definition prisma_service_findMany (wh : WhereClause) : Async (list Service) :=
  fun w =>
    if reachable w
    then (Normal (orderBy_createdAt_desc (filter (satisfies wh) (services w))), w)
    else (Throw unavailable, w).

End Persistence.

(** [prisma.service.findUnique({ where: { id } })]: the document or [null]. *)
Definition prisma_service_findUnique (i : ObjectId) : Async (option Service) :=
  fun w =>
    if reachable w
    then (Normal (find (has_id i) (services w)), w)
    else (Throw unavailable, w).

(** [prisma.service.create({ data })]: a fresh [id], and both time stamps
    set to the time of the request. *)
Definition prisma_service_create (d : ServiceData) : Async Service :=
  fun w =>
    if reachable w
    then
      let r := mkService (next_oid w) (d_name d) (d_description d) (d_price d)
                         (d_isActive d) (d_isFeatured d) (clock w) (clock w) in
      (Normal r, with_services (services w ++ [r]) (N.succ (next_oid w)) w)
    else (Throw unavailable, w).

(** The five fields of [data] written over a document, [updatedAt]
    refreshed. *)
Definition overwrite (d : ServiceData) (now : Z) (r : Service) : Service :=
  mkService (id r) (d_name d) (d_description d) (d_price d)
            (d_isActive d) (d_isFeatured d) (createdAt r) now.

(** [prisma.service.update({ where: { id }, data })] *)
Definition prisma_service_update (i : ObjectId) (d : ServiceData) : Async Service :=
  fun w =>
    if reachable w
    then
      match find (has_id i) (services w) with
      | Some r =>
          let r' := overwrite d (clock w) r in
          (Normal r',
           with_services
             (map (fun x => if has_id i x then overwrite d (clock w) x else x) (services w))
             (next_oid w) w)
      | None => (Throw not_found, w)
      end
    else (Throw unavailable, w).

(** [prisma.service.delete({ where: { id } })] *)
Definition prisma_service_delete (i : ObjectId) : Async Service :=
  fun w =>
    if reachable w
    then
      match find (has_id i) (services w) with
      | Some r =>
          (Normal r,
           with_services (filter (fun x => negb (has_id i x)) (services w)) (next_oid w) w)
      | None => (Throw not_found, w)
      end
    else (Throw unavailable, w).

(* ================================================================= *)
(** ** The server actions ([src/actions/services.ts]) *)

Local Open Scope async_scope.

(** What an action other than [getServices] resolves to: [undefined]
    (a success path has no [return]), [null] or a document (the result of
    [findUnique]), or the object [{ error: message }]. *)
Inductive Reply : Type :=
| Undefined
| Null
| Document (service : Service)
| ErrorObject (error : string).

Definition serviceTag : string := "services".

Definition validation_message : string :=
  "All fields are required and price must be a valid number".

(* --- CREATE ---- *)
Definition createService (formData : FormData) : Async Reply :=
  let name := FormData_get "name" formData in
  let description := FormData_get "description" formData in
  let price := JS.parseFloat (JS.ToString (FormData_get "price" formData)) in
  let isActive := JS.strict_eq (FormData_get "isActive" formData) "true" in
  let isFeatured := JS.strict_eq (FormData_get "isFeatured" formData) "true" in
  if negb (JS.truthy name) || negb (JS.truthy description) || JS.isNaN price then
    ret (ErrorObject validation_message)
  else
    try_catch
      (_ <- prisma_service_create
              (mkData (as_string name) (as_string description) price isActive isFeatured) ;;
       revalidateTag serviceTag ;;
       ret Undefined)
      (fun error =>
         console_error ("Error creating service: " ++ error) ;;
         ret (ErrorObject "Failed to create service")).

(* --- READ ---- *)
Section Read.

Variable fold : ascii -> ascii.

(** The [whereClause] that [getServices] builds. *)
Definition whereClause (searchTerm : JS.nullable) (filterIsActive : FilterActive.t)
  : WhereClause :=
  let status := FilterActive.isActive filterIsActive in
  mkWhere
    (* Add status filter *)
    (if negb (String.eqb status "all")
     then Some (String.eqb status "true")
     else None)
    (* Add search filter *)
    (if JS.truthy searchTerm && negb (String.eqb (JS.trim (as_string searchTerm)) "")
     then Some [ NameContains (as_string searchTerm);
                 DescriptionContains (as_string searchTerm) ]
     else None).

Definition getServices (searchTerm : JS.nullable) (filterIsActive : FilterActive.t)
  : Async (list Service) :=
  try_catch
    (services <- prisma_service_findMany fold (whereClause searchTerm filterIsActive) ;;
     ret services)
    (fun error =>
       console_error ("Error getting services: " ++ error) ;;
       ret []).

End Read.

Definition getService (id : ObjectId) : Async Reply :=
  try_catch
    (service <- prisma_service_findUnique id ;;
     ret (match service with Some r => Document r | None => Null end))
    (fun error =>
       console_error ("Error getting service: " ++ error) ;;
       ret (ErrorObject "Failed to get service")).

(* --- UPDATE ---- *)
Definition updateService (id : ObjectId) (formData : FormData) : Async Reply :=
  let name := FormData_get "name" formData in
  let description := FormData_get "description" formData in
  let price := JS.parseFloat (JS.ToString (FormData_get "price" formData)) in
  let isActive := JS.strict_eq (FormData_get "isActive" formData) "true" in
  let isFeatured := JS.strict_eq (FormData_get "isFeatured" formData) "true" in
  if negb (JS.truthy name) || negb (JS.truthy description) || JS.isNaN price then
    ret (ErrorObject validation_message)
  else
    try_catch
      (_ <- prisma_service_update id
              (mkData (as_string name) (as_string description) price isActive isFeatured) ;;
       revalidateTag serviceTag ;;
       ret Undefined)
      (fun error =>
         console_error ("Error updating service: " ++ error) ;;
         ret (ErrorObject "Failed to update service")).

(* --- DELETE ---- *)
Definition deleteService (id : ObjectId) : Async Reply :=
  try_catch
    (_ <- prisma_service_delete id ;;
     revalidateTag serviceTag ;;
     revalidatePath "/dashboard/services" ;;
     ret Undefined)
    (fun error =>
       console_error ("Error deleting service: " ++ error) ;;
       ret (ErrorObject "Failed to delete service")).

Local Close Scope async_scope.

(* ================================================================= *)
(** ** The filter component ([service-filters.tsx]) *)

Module Filters.

(** [URLSearchParams]: an ordered list of name/value pairs. *)
Definition URLSearchParams := list (string * string).

Definition params_delete (name : string) (p : URLSearchParams) : URLSearchParams :=
  filter (fun kv => negb (String.eqb (fst kv) name)) p.

(** [params.set(name, value)]: the first entry of that name takes the
    value and the later ones go; with no such entry one is appended. *)
Fixpoint params_set (name value : string) (p : URLSearchParams) : URLSearchParams :=
  match p with
  | [] => [(name, value)]
  | (k, v) :: p' =>
      if String.eqb k name
      then (k, value) :: params_delete name p'
      else (k, v) :: params_set name value p'
  end.

Fixpoint params_get (name : string) (p : URLSearchParams) : option string :=
  match p with
  | [] => None
  | (k, v) :: p' => if String.eqb k name then Some v else params_get name p'
  end.

Fixpoint params_eqb (p q : URLSearchParams) : bool :=
  match p, q with
  | [], [] => true
  | (k, v) :: p', (k', v') :: q' =>
      String.eqb k k' && String.eqb v v' && params_eqb p' q'
  | _, _ => false
  end.

(** [createQueryString(name, value)] over the current [searchParams]; the
    query is kept as its parameter list. *)
Definition createQueryString (searchParams : URLSearchParams) (name value : string)
  : URLSearchParams :=
  let params := searchParams in
  if String.eqb value "" || String.eqb value "all"
  then params_delete name params
  else params_set name value params.

(** A pending [setTimeout] of the search effect: its id, the time it is
    due, and what its callback closed over. *)
Record Timeout : Type := mkTimeout {
  timeoutId : nat;
  due : Z;
  seen_local : string;            (* [localSearchTerm] of that render *)
  seen_searchTerm : string;       (* [searchTerm] of that render *)
  seen_params : URLSearchParams   (* [searchParams] behind [createQueryString] *)
}.

(** A [router.push] to [/dashboard/services?query], with the time of the
    call. *)
Record Push : Type := mkPush {
  at_time : Z;
  query : URLSearchParams
}.

(** The state of [ServiceFilters]: its props, its one state variable, and
    the bookkeeping of the search effect. [isPending] only disables the two
    inputs while a push is under way and is left out. *)
Record Component : Type := mkComponent {
  searchTerm : string;               (* prop *)
  searchParams : URLSearchParams;    (* [useSearchParams()] *)
  localSearchTerm : string;          (* [useState(searchTerm)] *)
  timeouts : list Timeout;           (* timers of the event loop *)
  cleanup : option nat;              (* the id the effect's cleanup clears *)
  next_timeoutId : nat;
  pushed : list Push                 (* [router.push] calls so far *)
}.

Definition delay : Z := 1500.

Definition clearTimeout (i : nat) (ts : list Timeout) : list Timeout :=
  filter (fun t => negb (Nat.eqb (timeoutId t) i)) ts.

(** The debounced search effect runs: the cleanup of its previous run
    clears that run's timeout, then a new one is set for [now + 1500]. *)
Definition search_effect (now : Z) (c : Component) : Component :=
  let pending :=
    match cleanup c with
    | Some i => clearTimeout i (timeouts c)
    | None => timeouts c
    end in
  let t := mkTimeout (next_timeoutId c) (now + delay)
                     (localSearchTerm c) (searchTerm c) (searchParams c) in
  mkComponent (searchTerm c) (searchParams c) (localSearchTerm c)
              (pending ++ [t]) (Some (next_timeoutId c))
              (S (next_timeoutId c)) (pushed c).

(** [setLocalSearchTerm(value)]: an unchanged value causes no render;
    a changed one renders again, and the search effect, which depends on
    [localSearchTerm], runs. *)
Definition setLocalSearchTerm (now : Z) (value : string) (c : Component) : Component :=
  if String.eqb value (localSearchTerm c) then c
  else
    search_effect now
      (mkComponent (searchTerm c) (searchParams c) value
                   (timeouts c) (cleanup c) (next_timeoutId c) (pushed c)).

(** The callback of a timeout. *)
Definition fire (t : Timeout) (c : Component) : Component :=
  let c' := mkComponent (searchTerm c) (searchParams c) (localSearchTerm c)
                        (clearTimeout (timeoutId t) (timeouts c)) (cleanup c)
                        (next_timeoutId c) (pushed c) in
  if negb (String.eqb (seen_local t) (seen_searchTerm t))
  then mkComponent (searchTerm c') (searchParams c') (localSearchTerm c')
                   (timeouts c') (cleanup c') (next_timeoutId c')
                   (pushed c' ++ [mkPush (due t)
                                         (createQueryString (seen_params t) "search" (seen_local t))])
  else c'.

(** The timeouts due by [now], earliest first (a timeout set earlier is
    never due later: the delay is constant). *)
Definition advance (now : Z) (c : Component) : Component :=
  fold_left (fun c t => fire t c)
            (filter (fun t => due t <=? now) (timeouts c)) c.

(** First render with the props of the page. *)
Definition mount (now : Z) (searchTerm : string) (searchParams : URLSearchParams)
  : Component :=
  let c := mkComponent searchTerm searchParams searchTerm [] None 0 [] in
  (* both effects run; [setLocalSearchTerm(searchTerm)] changes nothing *)
  setLocalSearchTerm now searchTerm (search_effect now c).

Inductive Event : Type :=
| Typed (value : string)                                   (* [onChange] of the input *)
| Props (searchTerm : string) (searchParams : URLSearchParams)  (* the page renders again *)
| Status (value : string).                                 (* [onValueChange] of the select *)

Definition handleSearchChange (now : Z) (value : string) (c : Component) : Component :=
  setLocalSearchTerm now value c.

Definition handleStatusChange (now : Z) (value : string) (c : Component) : Component :=
  mkComponent (searchTerm c) (searchParams c) (localSearchTerm c)
              (timeouts c) (cleanup c) (next_timeoutId c)
              (pushed c ++ [mkPush now (createQueryString (searchParams c) "status" value)]).

(** New props: the search effect runs when [searchTerm] or [searchParams]
    (hence [createQueryString]) changed; the second effect, which depends on
    [searchTerm], then calls [setLocalSearchTerm(searchTerm)]. *)
Definition receive_props (now : Z) (s : string) (p : URLSearchParams) (c : Component)
  : Component :=
  let changed_term := negb (String.eqb s (searchTerm c)) in
  let changed_params :=
    negb (params_eqb p (searchParams c)) in
  let c1 := mkComponent s p (localSearchTerm c) (timeouts c) (cleanup c)
                        (next_timeoutId c) (pushed c) in
  let c2 := if changed_term || changed_params then search_effect now c1 else c1 in
  if changed_term then setLocalSearchTerm now s c2 else c2.

(** One event at time [now]: the timeouts due by then have fired. *)
Definition step (c : Component) (e : Z * Event) : Component :=
  let (now, ev) := e in
  let c := advance now c in
  match ev with
  | Typed v => handleSearchChange now v c
  | Props s p => receive_props now s p c
  | Status v => handleStatusChange now v c
  end.

Definition run (events : list (Z * Event)) (c : Component) : Component :=
  fold_left step events c.

(** *** Invariants of the component *)

(** Every pending timeout is the one the effect's cleanup will clear. *)
Definition owned (c : Component) : Prop :=
  forall t, In t (timeouts c) -> cleanup c = Some (timeoutId t).

(** Every pending timeout closed over the values of the latest render. *)
Definition current (c : Component) : Prop :=
  forall t, In t (timeouts c) ->
    seen_local t = localSearchTerm c
    /\ seen_searchTerm t = searchTerm c
    /\ seen_params t = searchParams c.

(** No timeout that would push is due by [now]. *)
Definition quiet_until (now : Z) (c : Component) : Prop :=
  forall t, In t (timeouts c) -> seen_local t <> seen_searchTerm t -> now < due t.

(** The states the component gets into from its first render. *)
Inductive reaches : Component -> Prop :=
| reaches_mount (now : Z) (s : string) (p : URLSearchParams) :
    reaches (mount now s p)
| reaches_step (c : Component) (e : Z * Event) :
    reaches c -> reaches (step c e).

(** The timeout a run of the search effect at [now] sets. *)
Definition scheduled (now : Z) (c : Component) : Timeout :=
  mkTimeout (next_timeoutId c) (now + delay)
            (localSearchTerm c) (searchTerm c) (searchParams c).

(** Three changes of the input, at 0 ms, 500 ms and 1000 ms, after a first
    render at [t0] with search term [s0]. *)
Definition three_changes (t0 : Z) (s0 : string) (p : URLSearchParams)
                         (v0 v1 v2 : string) : Component :=
  run [(0, Typed v0); (500, Typed v1); (1000, Typed v2)] (mount t0 s0 p).

End Filters.

(* ================================================================= *)
(** ** The dialog ([service-form.tsx]) *)

(** [b.toString()] of a boolean. *)
Definition Boolean_toString (b : bool) : string := if b then "true" else "false".

Module ServiceForm.

(** The [formData] state of the dialog. *)
Record Fields : Type := mkFields {
  name : string;
  description : string;
  price : string;
  isActive : bool;
  isFeatured : bool
}.

(** The three state variables of [ServiceForm]. *)
Record State : Type := mkState {
  open : bool;
  isLoading : bool;
  formData : Fields
}.

(** The fields [handleSubmit] puts back after the call. *)
Definition cleared : Fields := mkFields "" "" "" true false.

(** The [FormData] that [handleSubmit] appends to. *)
Definition form (f : Fields) : FormData :=
  [("name", name f); ("description", description f); ("price", price f);
   ("isActive", Boolean_toString (isActive f));
   ("isFeatured", Boolean_toString (isFeatured f))].

(** [handleSubmit]: the state of the dialog and the world, before and
    after. What the action resolves to is not looked at. *)
Definition handleSubmit (service : option Service) (st : State) (w : World)
  : State * World :=
  (* setIsLoading(true) *)
  let st := mkState (open st) true (formData st) in
  let (st, w) :=
    (* try *)
    match (match service with
           | Some s => updateService (id s) (form (formData st))
           | None => createService (form (formData st))
           end) w with
    | (Normal _, w') =>
        (* setOpen(false); setFormData({ ... }) *)
        (mkState false (isLoading st) cleared, w')
    | (Throw error, w') =>
        (* catch *)
        (st, snd (console_error ("Error saving service: " ++ error) w'))
    end in
  (* finally: setIsLoading(false) *)
  (mkState (open st) false (formData st), w).

End ServiceForm.

(* ================================================================= *)
(** ** The page ([page.tsx]) *)

Module Page.

(** The [searchParams] prop: [search] and [status], each optional. *)
Record Params : Type := mkParams {
  search : JS.nullable;
  status : JS.nullable
}.

(** What the page hands down: the props of [ServiceFilters] and the
    services the table maps over. *)
Record View : Type := mkView {
  filters_searchTerm : string;
  filters_filterIsActive : FilterActive.t;
  table : list Service
}.

Section Render.

Variable fold : ascii -> ascii.

Definition ServicesPage (searchParams : Params) : Async View :=
  let search := search searchParams in
  let status := status searchParams in
  (* (status as ...) || "all" *)
  let filterIsActive :=
    FilterActive.make (if JS.truthy status then as_string status else "all") in
  bind (getServices fold search filterIsActive) (fun services =>
  ret (mkView (if JS.truthy search then as_string search else "")  (* search || "" *)
              filterIsActive services)).

End Render.

End Page.

(* ================================================================= *)
(** ** The earlier revision of the actions

    The second listing of [services.ts]: the form values go to the client
    as they are, and [redirect] is called inside the [try]. What the client
    does with such [data] is left open: the call is a parameter. *)

Module Earlier.

(** [redirect(path)] completes by throwing (the framework's redirect
    signal), never normally. *)
Definition redirect {A : Type} (path : string) : Async A :=
  fun w => (Throw ("NEXT_REDIRECT;" ++ path), w).

(** The [data] of this revision: five form values, none coerced. *)
Record Data : Type := mkData {
  name : JS.nullable;
  description : JS.nullable;
  price : JS.nullable;
  isActive : JS.nullable;
  isFeatured : JS.nullable
}.

Section Client.

Variable prisma_service_create : Data -> Async Service.
Variable prisma_service_update : ObjectId -> Data -> Async Service.

Local Open Scope async_scope.

Definition createService (formData : FormData) : Async Reply :=
  let name := FormData_get "name" formData in
  let description := FormData_get "description" formData in
  let price := FormData_get "price" formData in
  let isActive := FormData_get "isActive" formData in
  let isFeatured := FormData_get "isFeatured" formData in
  if negb (JS.truthy name) || negb (JS.truthy description) || negb (JS.truthy price) then
    ret (ErrorObject "All fields are required")
  else
    try_catch
      (_ <- prisma_service_create (mkData name description price isActive isFeatured) ;;
       revalidateTag serviceTag ;;
       redirect "/dashboard/services")
      (fun error =>
         console_error ("Error creating service: " ++ error) ;;
         ret (ErrorObject "Failed to create service")).

Definition updateService (id : ObjectId) (formData : FormData) : Async Reply :=
  let name := FormData_get "name" formData in
  let description := FormData_get "description" formData in
  let price := FormData_get "price" formData in
  let isActive := FormData_get "isActive" formData in
  let isFeatured := FormData_get "isFeatured" formData in
  if negb (JS.truthy name) || negb (JS.truthy description) || negb (JS.truthy price) then
    ret (ErrorObject "All fields are required")
  else
    try_catch
      (_ <- prisma_service_update id (mkData name description price isActive isFeatured) ;;
       revalidateTag serviceTag ;;
       redirect "/dashboard/services")
      (fun error =>
         console_error ("Error updating service: " ++ error) ;;
         ret (ErrorObject "Failed to update service")).

Local Close Scope async_scope.

End Client.

End Earlier.

(* ================================================================= *)
(** ** Vocabulary of the specification *)

(** Every code unit of [s] is white space. *)
Fixpoint whitespace_only (s : string) : bool :=
  match s with
  | EmptyString => true
  | String c s' => JS.isWhiteSpace c && whitespace_only s'
  end.

(** [a] may stand before [b] in a result ordered by [createdAt] descending. *)
Definition not_older (a b : Service) : Prop := createdAt b <= createdAt a.

(** [s] occurs in [value] up to case: some contiguous part of [value]
    folds to what [s] folds to. *)
Definition occurs_ignoring_case (fold : ascii -> ascii) (s value : string) : Prop :=
  exists pre mid post,
    value = pre ++ mid ++ post /\ foldCase fold mid = foldCase fold s.

(** A record is among those a call of [getServices] resolved to. *)
Definition appears (r : Service) (out : completion (list Service) * World) : Prop :=
  exists l, fst out = Normal l /\ In r l.

(** The boolean a status filter stands for. *)
Definition parse_status (f : string) : option bool :=
  if String.eqb f "true" then Some true
  else if String.eqb f "false" then Some false
  else None.

(** The status constraint of the specification. *)
Definition status_accepts (f : string) (r : Service) : Prop :=
  f = "all" \/ parse_status f = Some (isActive r).

(** The text constraint of the specification: none for an absent, empty or
    blank term, else an occurrence in the name or in the description. *)
Definition no_text (s : JS.nullable) : Prop :=
  s = None \/ s = Some EmptyString \/ exists t, s = Some t /\ whitespace_only t = true.

Definition text_accepts (fold : ascii -> ascii) (s : JS.nullable) (r : Service) : Prop :=
  no_text s
  \/ occurs_ignoring_case fold (as_string s) (name r)
  \/ occurs_ignoring_case fold (as_string s) (description r).

(** Ordered by [createdAt] descending, equal [createdAt] by [id] descending. *)
Definition newer_then_higher_id (a b : Service) : Prop :=
  createdAt b < createdAt a \/ (createdAt b = createdAt a /\ (id b <= id a)%N).

(** A form value that is absent or empty. *)
Definition blank (v : JS.nullable) : Prop := v = None \/ v = Some EmptyString.

(** A finite number that is not negative. *)
Definition finite_nonnegative (n : JS.number) : bool :=
  match n with
  | JS.Decimal negative mantissa _ => negb negative || N.eqb mantissa 0
  | _ => false
  end.

(** A form the specification of the guard turns down: name or description
    absent or empty, or a price that [parseFloat] makes no number of. *)
Definition invalid_form (formData : FormData) : Prop :=
  blank (FormData_get "name" formData)
  \/ blank (FormData_get "description" formData)
  \/ JS.parseFloat (JS.ToString (FormData_get "price" formData)) = JS.NaN.

(** What the actions do with a form that passes the guard. *)
Definition form_data (formData : FormData) : ServiceData :=
  mkData (as_string (FormData_get "name" formData))
         (as_string (FormData_get "description" formData))
         (JS.parseFloat (JS.ToString (FormData_get "price" formData)))
         (JS.strict_eq (FormData_get "isActive" formData) "true")
         (JS.strict_eq (FormData_get "isFeatured" formData) "true").

(** The document [create] stores for [data] in world [w]. *)
Definition created (d : ServiceData) (w : World) : Service :=
  mkService (next_oid w) (d_name d) (d_description d) (d_price d)
            (d_isActive d) (d_isFeatured d) (clock w) (clock w).

(** The store hands out ids it has not used: every stored id is below the
    next one. *)
Definition fresh_ids (w : World) : Prop :=
  Forall (fun r => (id r < next_oid w)%N) (services w).

(** The failure object of [deleteService]. *)
Definition delete_failed : Reply := ErrorObject "Failed to delete service".

(** An empty collection behind a store that answers. *)
Definition world0 : World := mkWorld [] 0%N 0 true [] [].

(** Two forms as the dialog submits them, and the collection after both
    were created within the same millisecond. *)
Definition consulting_form : FormData :=
  [("name", "Consulting"); ("description", "1hr session"); ("price", "99.50");
   ("isActive", "true"); ("isFeatured", "false")].

Definition web_form : FormData :=
  [("name", "Web Design"); ("description", "Sites for the web "); ("price", "1500.00");
   ("isActive", "false"); ("isFeatured", "true")].

Definition consulting : Service :=
  mkService 0%N "Consulting" "1hr session" (JS.Decimal false 9950 (-2)) true false 0 0.

Definition web_design : Service :=
  mkService 1%N "Web Design" "Sites for the web " (JS.Decimal false 150000 (-2)) false true 0 0.

Definition two_services : World :=
  snd (createService web_form (snd (createService consulting_form world0))).

(** The same store, not answering. *)
Definition two_services_down : World :=
  mkWorld (services two_services) (next_oid two_services) (clock two_services)
          false (console two_services) (revalidated two_services).

(** Forms the guard lets through: a negative price; a flag that is neither
    "true" nor "false". *)
Definition negative_price_form : FormData :=
  [("name", "Consulting"); ("description", "x"); ("price", "-5")].

Definition odd_flag_form : FormData :=
  [("name", "Consulting"); ("description", "x"); ("price", "10");
   ("isActive", "yes"); ("isFeatured", "false")].

(** The scenario form of the specification with an empty name. *)
Definition nameless_form : FormData :=
  [("name", ""); ("description", "x"); ("price", "10")].

(** Folding of the letters A..Z to a..z, every other code unit kept. *)
Definition ascii_lower (c : ascii) : ascii :=
  let n := nat_of_ascii c in
  if (65 <=? n)%nat && (n <=? 90)%nat then ascii_of_nat (n + 32) else c.

(** *** Further vocabulary *)

(** A call left the collection, the id supply and the invalidation log as
    they were. *)
Definition untouched (w w' : World) : Prop :=
  services w' = services w
  /\ next_oid w' = next_oid w
  /\ revalidated w' = revalidated w.

(** A mutation from world [w] either went through, resolving to
    [undefined] with exactly [marks] added to the invalidation log, or
    resolved to an error object and left the store alone. *)
Definition all_or_nothing (w : World) (marks : list Invalidation)
                          (out : completion Reply * World) : Prop :=
  (fst out = Normal Undefined
   /\ revalidated (snd out) = (revalidated w ++ marks)%list)
  \/ (exists e, fst out = Normal (ErrorObject e) /\ untouched w (snd out)).



(** A code unit a number text can begin with: white space, a sign, a
    digit, a dot, or the [I] of [Infinity]. *)
Definition numeric_lead (c : ascii) : bool :=
  JS.isWhiteSpace c || JS.isDigit c || Ascii.eqb c "+" || Ascii.eqb c "-"
  || Ascii.eqb c "." || Ascii.eqb c "I".


(** Changes of the input, each with its time. *)
Definition typed (changes : list (Z * string)) : list (Z * Filters.Event) :=
  map (fun c => (fst c, Filters.Typed (snd c))) changes.

(** After a change to [v] at time [t]: each further change comes before
    the 1500 ms since the one before it are over, and changes the value. *)
Fixpoint burst (t : Z) (v : string) (changes : list (Z * string)) : Prop :=
  match changes with
  | [] => True
  | (t', v') :: rest =>
      t <= t' /\ t' < t + Filters.delay /\ v' <> v /\ burst t' v' rest
  end.

(** The last change of a burst that began with [(t, v)]. *)
Fixpoint last_change (t : Z) (v : string) (changes : list (Z * string)) : Z * string :=
  match changes with
  | [] => (t, v)
  | (t', v') :: rest => last_change t' v' rest
  end.

(** The component after a change of the input to [v] at time [t], with
    active term [s] and parameters [p]: [pushes] made so far, and one
    timeout pending, due 1500 ms after [t], closed over [v], [s] and [p]. *)
Definition armed (pushes : list Filters.Push) (t : Z) (v s : string)
                 (p : Filters.URLSearchParams) (c : Filters.Component) : Prop :=
  Filters.owned c
  /\ Filters.localSearchTerm c = v
  /\ Filters.searchTerm c = s
  /\ Filters.searchParams c = p
  /\ Filters.pushed c = pushes
  /\ exists i, Filters.timeouts c = [Filters.mkTimeout i (t + 1500) v s p].

(** How many entries of a query carry the name. *)
Definition occurrences (name : string) (q : Filters.URLSearchParams) : nat :=
  List.length (filter (fun kv => String.eqb (fst kv) name) q).

(* ================================================================= *)
(** * Properties *)

(* ----------------------------------------------------------------- *)
(** ** The primitives on sample inputs *)

Example parseFloat_decimal : JS.parseFloat "99.50" = JS.Decimal false 9950 (-2).
Proof. reflexivity. Qed.

Example parseFloat_prefix : JS.parseFloat "  12abc" = JS.Decimal false 12 0.
Proof. reflexivity. Qed.

Example parseFloat_exponent : JS.parseFloat "-.5e+3x" = JS.Decimal true 5 2.
Proof. reflexivity. Qed.

Example parseFloat_dangling_exponent : JS.parseFloat "7.e" = JS.Decimal false 7 0.
Proof. reflexivity. Qed.

Example parseFloat_infinity : JS.parseFloat "-Infinity" = JS.Infinity true.
Proof. reflexivity. Qed.

Example parseFloat_null : JS.parseFloat (JS.ToString None) = JS.NaN.
Proof. reflexivity. Qed.

Example parseFloat_dot : JS.parseFloat "." = JS.NaN.
Proof. reflexivity. Qed.

Example parseFloat_empty : JS.parseFloat "" = JS.NaN.
Proof. reflexivity. Qed.

Example trim_both_ends : JS.trim "  web " = "web".
Proof. reflexivity. Qed.

Example trim_inner_kept : JS.trim " web  design " = "web  design".
Proof. reflexivity. Qed.

Example ascii_lower_sample : foldCase ascii_lower "Web Design 2" = "web design 2".
Proof. reflexivity. Qed.

Example two_services_stored : services two_services = [consulting; web_design].
Proof. reflexivity. Qed.

Example two_services_listed :
  fst (getServices ascii_lower (Some "WEB") (FilterActive.make "all") two_services)
  = Normal [web_design].
Proof. reflexivity. Qed.

Example update_missing_id :
  fst (updateService 7%N consulting_form two_services)
  = Normal (ErrorObject "Failed to update service").
Proof. reflexivity. Qed.

(* ----------------------------------------------------------------- *)
(** ** Strings *)

Lemma trimStart_blank (s : string) :
  JS.trimStart s = EmptyString <-> whitespace_only s = true.
Proof.
  induction s as [| c s IH]; simpl.
  - tauto.
  - destruct (JS.isWhiteSpace c); simpl.
    + exact IH.
    + split; discriminate.
Qed.

Lemma trimEnd_blank (s : string) :
  JS.trimEnd s = EmptyString <-> whitespace_only s = true.
Proof.
  induction s as [| c s IH]; simpl.
  - tauto.
  - destruct (JS.trimEnd s) eqn:E.
    + destruct (JS.isWhiteSpace c); simpl.
      * split; intros _; [apply IH|]; reflexivity.
      * split; discriminate.
    + split; [discriminate|].
      intros H. apply andb_true_iff in H as [_ H].
      apply IH in H. discriminate.
Qed.

Lemma whitespace_only_trimStart (s : string) :
  whitespace_only (JS.trimStart s) = true -> whitespace_only s = true.
Proof.
  induction s as [| c s IH]; simpl; [tauto|].
  destruct (JS.isWhiteSpace c) eqn:E; simpl.
  - exact IH.
  - rewrite E. discriminate.
Qed.

(** [s.trim() === ""] exactly when [s] is nothing but white space. *)
Lemma trim_blank (s : string) :
  JS.trim s = EmptyString <-> whitespace_only s = true.
Proof.
  unfold JS.trim. rewrite trimEnd_blank. split.
  - apply whitespace_only_trimStart.
  - intros H. apply trimStart_blank in H. rewrite H. reflexivity.
Qed.

Lemma prefix_app (p s : string) :
  String.prefix p s = true <-> exists t, s = p ++ t.
Proof.
  revert s. induction p as [| a p IH]; intros s.
  - split; intros _; [exists s; reflexivity | destruct s; reflexivity].
  - destruct s as [| b s]; simpl.
    + split; [discriminate | intros [t H]; discriminate].
    + destruct (ascii_dec a b) as [->|N].
      * rewrite IH. split; intros [t H]; exists t.
        -- rewrite H. reflexivity.
        -- injection H. auto.
      * split; [discriminate | intros [t H]; injection H; intros; congruence].
Qed.

Lemma append_assoc (a b c : string) : (a ++ b) ++ c = a ++ (b ++ c).
Proof. induction a as [| x a IH]; simpl; [|rewrite IH]; reflexivity. Qed.

(** [includes] finds exactly the contiguous occurrences. *)
Lemma includes_spec (needle hay : string) :
  includes needle hay = true <-> exists pre post, hay = pre ++ needle ++ post.
Proof.
  induction hay as [| c hay IH].
  - cbn [includes]. rewrite orb_false_r, prefix_app. split.
    + intros [t H]. exists EmptyString, t. exact H.
    + intros [pre [post H]]. destruct pre; simpl in H; [exists post; exact H|discriminate].
  - cbn [includes]. rewrite orb_true_iff, prefix_app, IH. split.
    + intros [[t H] | [pre [post H]]].
      * exists EmptyString, t. exact H.
      * exists (String c pre), post. simpl. rewrite H. reflexivity.
    + intros [pre [post H]]. destruct pre as [| x pre]; simpl in H.
      * left. exists post. exact H.
      * right. injection H as _ H. exists pre, post. exact H.
Qed.

(* ----------------------------------------------------------------- *)
(** ** The ordering of a query result *)

Lemma insert_desc_In (x r : Service) (l : list Service) :
  In x (insert_desc r l) <-> x = r \/ In x l.
Proof.
  induction l as [| y l IH]; simpl.
  - intuition congruence.
  - destruct (createdAt y <=? createdAt r); simpl.
    + intuition congruence.
    + rewrite IH. intuition congruence.
Qed.

Lemma orderBy_In (x : Service) (l : list Service) :
  In x (orderBy_createdAt_desc l) <-> In x l.
Proof.
  induction l as [| y l IH]; simpl.
  - tauto.
  - rewrite insert_desc_In, IH. intuition congruence.
Qed.

Lemma insert_desc_perm (r : Service) (l : list Service) :
  Permutation (r :: l) (insert_desc r l).
Proof.
  induction l as [| y l IH]; simpl.
  - apply Permutation_refl.
  - destruct (createdAt y <=? createdAt r).
    + apply Permutation_refl.
    + eapply perm_trans; [apply perm_swap|]. apply perm_skip, IH.
Qed.

Lemma orderBy_perm (l : list Service) :
  Permutation l (orderBy_createdAt_desc l).
Proof.
  induction l as [| y l IH]; simpl.
  - apply perm_nil.
  - eapply perm_trans; [apply perm_skip, IH | apply insert_desc_perm].
Qed.

Lemma insert_desc_sorted (r : Service) (l : list Service) :
  StronglySorted not_older l -> StronglySorted not_older (insert_desc r l).
Proof.
  induction 1 as [| y l Hs IH Hall]; simpl.
  - repeat constructor.
  - destruct (createdAt y <=? createdAt r) eqn:E.
    + apply Z.leb_le in E. constructor; [constructor; assumption|].
      constructor; [exact E|].
      eapply Forall_impl; [|exact Hall].
      unfold not_older. intros; lia.
    + apply Z.leb_gt in E. constructor; [exact IH|].
      apply Forall_forall. intros x Hx.
      apply insert_desc_In in Hx as [-> | Hx].
      * unfold not_older. lia.
      * rewrite Forall_forall in Hall. auto.
Qed.

Lemma orderBy_sorted (l : list Service) :
  StronglySorted not_older (orderBy_createdAt_desc l).
Proof.
  induction l as [| y l IH]; simpl.
  - constructor.
  - apply insert_desc_sorted, IH.
Qed.

(* ----------------------------------------------------------------- *)
(** ** Matching without regard to case *)

Section FoldCase.

Variable fold : ascii -> ascii.

Lemma foldCase_app (a b : string) :
  foldCase fold (a ++ b) = foldCase fold a ++ foldCase fold b.
Proof. induction a as [| c a IH]; simpl; [|rewrite IH]; reflexivity. Qed.

Lemma foldCase_split (v a b : string) :
  foldCase fold v = a ++ b ->
  exists v1 v2, v = v1 ++ v2 /\ foldCase fold v1 = a /\ foldCase fold v2 = b.
Proof.
  revert v. induction a as [| c a IH]; intros v H; simpl in H.
  - exists EmptyString, v. auto.
  - destruct v as [| x v]; simpl in H; [discriminate|].
    injection H as Hc H. destruct (IH _ H) as [v1 [v2 [-> [H1 H2]]]].
    exists (String x v1), v2. simpl. rewrite Hc, H1. auto.
Qed.

Lemma contains_insensitive_spec (s value : string) :
  contains_insensitive fold s value = true <-> occurs_ignoring_case fold s value.
Proof.
  unfold contains_insensitive, occurs_ignoring_case.
  rewrite includes_spec. split.
  - intros [pre [post H]].
    apply foldCase_split in H as [v1 [v' [-> [H1 H]]]].
    apply foldCase_split in H as [v2 [v3 [-> [H2 H3]]]].
    exists v1, v2, v3. auto.
  - intros [pre [mid [post [-> H]]]].
    exists (foldCase fold pre), (foldCase fold post).
    rewrite !foldCase_app, H. reflexivity.
Qed.

Lemma foldCase_length (s : string) :
  String.length (foldCase fold s) = String.length s.
Proof. induction s as [| c s IH]; simpl; [|rewrite IH]; reflexivity. Qed.

End FoldCase.

Lemma append_length (a b : string) :
  String.length (a ++ b) = (String.length a + String.length b)%nat.
Proof. induction a as [| c a IH]; simpl; [|rewrite IH]; reflexivity. Qed.

(** An occurrence is no longer than the text it occurs in. *)
Lemma occurs_length (fold : ascii -> ascii) (s value : string) :
  occurs_ignoring_case fold s value ->
  (String.length s <= String.length value)%nat.
Proof.
  intros [pre [mid [post [-> H]]]].
  apply (f_equal String.length) in H. rewrite !foldCase_length in H.
  rewrite !append_length. lia.
Qed.

(* ----------------------------------------------------------------- *)
(** ** [getServices] *)

Lemma no_text_iff (s : JS.nullable) :
  JS.truthy s && negb (String.eqb (JS.trim (as_string s)) "") = false <-> no_text s.
Proof.
  unfold no_text. destruct s as [[| c t] |]; simpl.
  - intuition.
  - destruct (String.eqb_spec (JS.trim (String c t)) "") as [E | E]; simpl.
    + apply trim_blank in E. split; [intros _ | reflexivity].
      right; right. exists (String c t). auto.
    + split; [discriminate|].
      intros [H | [H | [t' [H Hw]]]]; try discriminate.
      injection H as <-. apply trim_blank in Hw. contradiction.
  - intuition.
Qed.

Lemma status_accepts_iff (f : string) (r : Service) :
  In f ["all"; "true"; "false"] ->
  match (if negb (String.eqb f "all") then Some (String.eqb f "true") else None) with
  | Some b => Bool.eqb (isActive r) b
  | None => true
  end = true <-> status_accepts f r.
Proof.
  unfold status_accepts, parse_status.
  intros [<- | [<- | [<- | []]]]; simpl.
  - intuition.
  - destruct (isActive r); simpl; intuition (discriminate || congruence).
  - destruct (isActive r); simpl; intuition (discriminate || congruence).
Qed.

Section GetServices.

Variable fold : ascii -> ascii.

Lemma getServices_reachable (s : JS.nullable) (f : FilterActive.t) (w : World) :
  reachable w = true ->
  getServices fold s f w =
  (Normal (orderBy_createdAt_desc
             (filter (satisfies fold (whereClause s f)) (services w))), w).
Proof.
  intros H. unfold getServices, try_catch, bind, prisma_service_findMany, ret.
  rewrite H. reflexivity.
Qed.

Lemma getServices_unreachable (s : JS.nullable) (f : FilterActive.t) (w : World) :
  reachable w = false ->
  fst (getServices fold s f w) = Normal [].
Proof.
  intros H. unfold getServices, try_catch, bind, prisma_service_findMany, ret.
  rewrite H. reflexivity.
Qed.

Lemma appears_iff (s : JS.nullable) (f : FilterActive.t) (w : World) (r : Service) :
  reachable w = true ->
  appears r (getServices fold s f w) <->
  In r (services w) /\ satisfies fold (whereClause s f) r = true.
Proof.
  intros H. unfold appears. rewrite getServices_reachable by exact H. simpl.
  split.
  - intros [l [E Hin]]. injection E as <-.
    apply orderBy_In, filter_In in Hin. exact Hin.
  - intros Hin. eexists. split; [reflexivity|].
    apply orderBy_In, filter_In. exact Hin.
Qed.

Lemma text_satisfied (s : JS.nullable) (r : Service) :
  match (if JS.truthy s && negb (String.eqb (JS.trim (as_string s)) "")
         then Some [NameContains (as_string s); DescriptionContains (as_string s)]
         else None) with
  | Some fs => existsb (field_matches fold r) fs
  | None => true
  end = true <-> text_accepts fold s r.
Proof.
  unfold text_accepts.
  destruct (JS.truthy s && negb (String.eqb (JS.trim (as_string s)) "")) eqn:E.
  - assert (N : ~ no_text s).
    { intros H. apply no_text_iff in H. congruence. }
    simpl. rewrite orb_false_r, orb_true_iff, !contains_insensitive_spec. tauto.
  - apply no_text_iff in E. tauto.
Qed.

(** What [where] asks of a record, in the words of the specification. *)
Lemma satisfies_iff (s : JS.nullable) (f : string) (r : Service) :
  In f ["all"; "true"; "false"] ->
  satisfies fold (whereClause s (FilterActive.make f)) r = true <->
  status_accepts f r /\ text_accepts fold s r.
Proof.
  intros Hf. unfold satisfies, whereClause. cbn [where_isActive where_OR FilterActive.isActive].
  rewrite andb_true_iff, (status_accepts_iff f r Hf), text_satisfied. tauto.
Qed.

Lemma status_accepts_all (r : Service) : status_accepts "all" r.
Proof. left. reflexivity. Qed.

Lemma text_accepts_absent (r : Service) : text_accepts fold None r.
Proof. left. left. reflexivity. Qed.

(** C1. With the store answering, a stored record is in the result of
    [getServices] under status filter [f] (one of "all", "true", "false")
    exactly when [f] is "all" or the record's [isActive] is the boolean [f]
    stands for: so it is with no search term, and under any search term the
    status filter selects, from the result for "all", exactly those
    records. *)
Theorem getServices_status_filter (w : World) (f : string) (r : Service) :
  reachable w = true ->
  In f ["all"; "true"; "false"] ->
  In r (services w) ->
  (appears r (getServices fold None (FilterActive.make f) w) <-> status_accepts f r)
  /\ (forall s : JS.nullable,
        appears r (getServices fold s (FilterActive.make f) w) <->
        appears r (getServices fold s (FilterActive.make "all") w) /\ status_accepts f r).
Proof.
  intros Hw Hf Hr. split.
  - rewrite appears_iff, satisfies_iff by assumption.
    pose proof (text_accepts_absent r). tauto.
  - intros s. rewrite !appears_iff by assumption.
    rewrite !satisfies_iff by (simpl; auto).
    pose proof (status_accepts_all r). tauto.
Qed.

(** C2. With the store answering and status filter "all", a stored record
    is in the result of [getServices] for search term [s] exactly when [s]
    is absent, empty or blank, or occurs in the name up to case, or occurs
    in the description up to case; and under any status filter the record
    is in the result exactly when the status constraint and the text
    constraint both hold, the text constraint being the disjunction of the
    two field checks. *)
Theorem getServices_search_filter (w : World) (s : JS.nullable) (r : Service) :
  reachable w = true ->
  In r (services w) ->
  (appears r (getServices fold s (FilterActive.make "all") w) <->
     no_text s
     \/ occurs_ignoring_case fold (as_string s) (name r)
     \/ occurs_ignoring_case fold (as_string s) (description r))
  /\ (forall f : string,
        In f ["all"; "true"; "false"] ->
        appears r (getServices fold s (FilterActive.make f) w) <->
        status_accepts f r /\
        (no_text s
         \/ occurs_ignoring_case fold (as_string s) (name r)
         \/ occurs_ignoring_case fold (as_string s) (description r))).
Proof.
  intros Hw Hr. split.
  - rewrite appears_iff, satisfies_iff by (simpl; auto).
    pose proof (status_accepts_all r). unfold text_accepts. tauto.
  - intros f Hf. rewrite appears_iff, satisfies_iff by assumption.
    unfold text_accepts. tauto.
Qed.

(** C3, as amended. For every search term and status filter, and whether
    or not the store answers, [getServices] resolves to a sequence ordered
    by [createdAt] descending, holding exactly the stored records that
    satisfy the filter; the query names no second sort key. *)
Theorem getServices_ordered (w : World) (s : JS.nullable) (f : FilterActive.t) :
  exists l,
    fst (getServices fold s f w) = Normal l
    /\ StronglySorted not_older l
    /\ (reachable w = true ->
        Permutation (filter (satisfies fold (whereClause s f)) (services w)) l).
Proof.
  destruct (reachable w) eqn:Hw.
  - rewrite getServices_reachable by exact Hw. eexists. split; [reflexivity|].
    split; [apply orderBy_sorted | intros _; apply orderBy_perm].
  - exists []. split; [apply getServices_unreachable; exact Hw|].
    split; [constructor | discriminate].
Qed.

(** C4. When the persistence layer fails during [getServices], the call
    resolves to the empty sequence; and in no world does [getServices]
    throw or resolve to anything but a sequence. *)
Theorem getServices_failure_is_empty
  (w : World) (s : JS.nullable) (f : FilterActive.t) :
  reachable w = false ->
  fst (getServices fold s f w) = Normal []
  /\ services (snd (getServices fold s f w)) = services w
  /\ (forall w', exists l, fst (getServices fold s f w') = Normal l).
Proof.
  intros Hw. split; [apply getServices_unreachable; exact Hw|]. split.
  - unfold getServices, try_catch, bind, prisma_service_findMany.
    rewrite Hw. reflexivity.
  - intros w'. destruct (reachable w') eqn:Hw'.
    + rewrite getServices_reachable by exact Hw'. eexists. reflexivity.
    + exists []. apply getServices_unreachable. exact Hw'.
Qed.

(** C10. A search term with a code unit that is not white space goes into
    both [contains] filters as it is, untrimmed: with the store answering
    and status filter "all", a stored record is in the result exactly when
    the untrimmed term occurs, up to case, in its name or in its
    description. *)
Theorem getServices_term_untrimmed (w : World) (s : string) (f : FilterActive.t) (r : Service) :
  reachable w = true ->
  In r (services w) ->
  whitespace_only s = false ->
  where_OR (whereClause (Some s) f) = Some [NameContains s; DescriptionContains s]
  /\ (appears r (getServices fold (Some s) (FilterActive.make "all") w) <->
        occurs_ignoring_case fold s (name r) \/ occurs_ignoring_case fold s (description r)).
Proof.
  intros Hw Hr Hs.
  assert (N : ~ no_text (Some s)).
  { intros [H | [H | [t [H Ht]]]]; try discriminate.
    - injection H as ->. discriminate.
    - injection H as <-. congruence. }
  split.
  - unfold whereClause. cbn [where_OR].
    destruct (JS.truthy (Some s) && negb (String.eqb (JS.trim (as_string (Some s))) "")) eqn:E.
    + reflexivity.
    + apply no_text_iff in E. contradiction.
  - rewrite appears_iff, satisfies_iff by (simpl; auto).
    pose proof (status_accepts_all r). unfold text_accepts. simpl. tauto.
Qed.

End GetServices.

(* ----------------------------------------------------------------- *)
(** ** The guard of [createService] and [updateService] *)

Lemma truthy_blank (v : JS.nullable) : JS.truthy v = false <-> blank v.
Proof.
  unfold blank. destruct v as [[| c t] |]; simpl; intuition discriminate.
Qed.

Lemma isNaN_iff (n : JS.number) : JS.isNaN n = true <-> n = JS.NaN.
Proof. destruct n; simpl; intuition discriminate. Qed.

Lemma guard_iff (formData : FormData) :
  negb (JS.truthy (FormData_get "name" formData))
  || negb (JS.truthy (FormData_get "description" formData))
  || JS.isNaN (JS.parseFloat (JS.ToString (FormData_get "price" formData))) = true
  <-> invalid_form formData.
Proof.
  unfold invalid_form.
  rewrite !orb_true_iff, !negb_true_iff, !truthy_blank, isNaN_iff. tauto.
Qed.

Lemma guard_passes (formData : FormData) :
  ~ invalid_form formData ->
  negb (JS.truthy (FormData_get "name" formData))
  || negb (JS.truthy (FormData_get "description" formData))
  || JS.isNaN (JS.parseFloat (JS.ToString (FormData_get "price" formData))) = false.
Proof.
  intros H. apply not_true_is_false. intros G. apply guard_iff in G. contradiction.
Qed.

Lemma createService_invalid (formData : FormData) (w : World) :
  invalid_form formData ->
  createService formData w = (Normal (ErrorObject validation_message), w).
Proof.
  intros H. apply guard_iff in H. unfold createService. rewrite H. reflexivity.
Qed.

Lemma updateService_invalid (i : ObjectId) (formData : FormData) (w : World) :
  invalid_form formData ->
  updateService i formData w = (Normal (ErrorObject validation_message), w).
Proof.
  intros H. apply guard_iff in H. unfold updateService. rewrite H. reflexivity.
Qed.

(** A form that passes the guard, against a store that answers: the
    document is appended, the tag invalidated, and nothing is returned. *)
Lemma createService_stored (formData : FormData) (w : World) :
  ~ invalid_form formData ->
  reachable w = true ->
  createService formData w =
  (Normal Undefined,
   mkWorld (services w ++ [created (form_data formData) w]) (N.succ (next_oid w))
           (clock w) (reachable w) (console w) (revalidated w ++ [Tag serviceTag])).
Proof.
  intros H Hw. unfold createService. rewrite (guard_passes _ H).
  unfold try_catch, bind, prisma_service_create, with_services.
  rewrite Hw. reflexivity.
Qed.

Lemma createService_store_down (formData : FormData) (w : World) :
  ~ invalid_form formData ->
  reachable w = false ->
  fst (createService formData w) = Normal (ErrorObject "Failed to create service")
  /\ services (snd (createService formData w)) = services w.
Proof.
  intros H Hw. unfold createService. rewrite (guard_passes _ H).
  unfold try_catch, bind, prisma_service_create. rewrite Hw. split; reflexivity.
Qed.

(** Past the guard [updateService] never answers with the message of the
    guard. *)
Lemma updateService_past_guard (i : ObjectId) (formData : FormData) (w : World) :
  ~ invalid_form formData ->
  fst (updateService i formData w) = Normal Undefined
  \/ fst (updateService i formData w) = Normal (ErrorObject "Failed to update service").
Proof.
  intros H. unfold updateService. rewrite (guard_passes _ H).
  unfold try_catch, bind, prisma_service_update.
  destruct (reachable w); [|right; reflexivity].
  destruct (find (has_id i) (services w)); [left | right]; reflexivity.
Qed.

(** C5, as amended. [createService] and [updateService] answer with the
    validation error, and leave the world as it was, exactly when the name
    is absent or empty, the description is absent or empty, or the price
    text has no number at its front ([parseFloat] gives [NaN]); every other
    form passes the guard, a negative or infinite price included. *)
Theorem validation_guard (formData : FormData) (i : ObjectId) (w : World) :
  (fst (createService formData w) = Normal (ErrorObject validation_message)
     <-> invalid_form formData)
  /\ (fst (updateService i formData w) = Normal (ErrorObject validation_message)
     <-> invalid_form formData)
  /\ (invalid_form formData ->
      snd (createService formData w) = w /\ snd (updateService i formData w) = w).
Proof.
  split; [|split].
  - split.
    + intros E. destruct (guard_iff formData) as [G _]. apply G.
      apply not_false_is_true. intros F.
      assert (N : ~ invalid_form formData).
      { intros I. apply guard_iff in I. congruence. }
      destruct (reachable w) eqn:Hw.
      * rewrite (createService_stored _ _ N Hw) in E. discriminate.
      * destruct (createService_store_down _ _ N Hw) as [E' _].
        rewrite E' in E. discriminate.
    + intros I. rewrite (createService_invalid _ _ I). reflexivity.
  - split.
    + intros E. destruct (guard_iff formData) as [G _]. apply G.
      apply not_false_is_true. intros F.
      assert (N : ~ invalid_form formData).
      { intros I. apply guard_iff in I. congruence. }
      destruct (updateService_past_guard i _ w N) as [E' | E'];
        rewrite E' in E; discriminate.
    + intros I. rewrite (updateService_invalid _ _ _ I). reflexivity.
  - intros I. rewrite (createService_invalid _ _ I), (updateService_invalid _ _ _ I).
    split; reflexivity.
Qed.

(* ----------------------------------------------------------------- *)
(** ** [createService] and what it stores *)

(** C6, as amended. For a form that passes the guard, against a store that
    answers, the created record has [isFeatured] true exactly when the
    [isFeatured] field is the text "true" (so false when the field is
    absent or anything else), and, when the [isActive] field is present,
    [isActive] true exactly when that field is the text "true". *)
Theorem createService_flags (formData : FormData) (w : World) :
  ~ invalid_form formData ->
  reachable w = true ->
  exists r,
    services (snd (createService formData w)) = (services w ++ [r])%list
    /\ (isFeatured r = true <-> FormData_get "isFeatured" formData = Some "true")
    /\ (forall v, FormData_get "isActive" formData = Some v ->
                  (isActive r = true <-> v = "true")).
Proof.
  intros H Hw. rewrite (createService_stored _ _ H Hw).
  exists (created (form_data formData) w). split; [reflexivity|]. split.
  - simpl. destruct (FormData_get "isFeatured" formData) as [v|]; simpl.
    + rewrite String.eqb_eq. split; congruence.
    + split; discriminate.
  - intros v E. simpl. rewrite E. simpl. apply String.eqb_eq.
Qed.

Lemma find_fresh (i : ObjectId) (l : list Service) :
  Forall (fun r => (id r < i)%N) l -> find (has_id i) l = None.
Proof.
  induction 1 as [| r l Hr _ IH]; simpl; [reflexivity|].
  unfold has_id at 1. destruct (N.eqb_spec (id r) i); [lia | exact IH].
Qed.

Lemma find_appended (i : ObjectId) (l : list Service) (r : Service) :
  find (has_id i) l = None -> id r = i -> find (has_id i) (l ++ [r]) = Some r.
Proof.
  intros Hl Hr. induction l as [| x l IH]; simpl in *.
  - unfold has_id. rewrite Hr, N.eqb_refl. reflexivity.
  - destruct (has_id i x); [discriminate | auto].
Qed.

Lemma getService_reachable (i : ObjectId) (w : World) :
  reachable w = true ->
  fst (getService i w) =
  Normal (match find (has_id i) (services w) with
          | Some r => Document r
          | None => Null
          end).
Proof.
  intros Hw. unfold getService, try_catch, bind, prisma_service_findUnique, ret.
  rewrite Hw. reflexivity.
Qed.

(** The ids stay fresh under the three mutations. *)
Lemma fresh_ids_world0 : fresh_ids world0.
Proof. constructor. Qed.

Lemma createService_fresh_ids (formData : FormData) (w : World) :
  fresh_ids w -> fresh_ids (snd (createService formData w)).
Proof.
  unfold fresh_ids, createService. intros H.
  destruct (negb _ || negb _ || JS.isNaN _); [exact H|].
  unfold try_catch, bind, prisma_service_create.
  destruct (reachable w); simpl; [|exact H].
  apply Forall_app. split.
  - eapply Forall_impl; [|exact H]. simpl. intros; lia.
  - constructor; [simpl; lia | constructor].
Qed.

Lemma deleteService_fresh_ids (i : ObjectId) (w : World) :
  fresh_ids w -> fresh_ids (snd (deleteService i w)).
Proof.
  unfold fresh_ids, deleteService, try_catch, bind, prisma_service_delete. intros H.
  destruct (reachable w); simpl; [|exact H].
  destruct (find (has_id i) (services w)); simpl; [|exact H].
  rewrite Forall_forall in *. intros x Hx. apply filter_In in Hx as [Hx _]. auto.
Qed.

Lemma updateService_fresh_ids (i : ObjectId) (formData : FormData) (w : World) :
  fresh_ids w -> fresh_ids (snd (updateService i formData w)).
Proof.
  unfold fresh_ids, updateService. intros H.
  destruct (negb _ || negb _ || JS.isNaN _); [exact H|].
  unfold try_catch, bind, prisma_service_update.
  destruct (reachable w); simpl; [|exact H].
  destruct (find (has_id i) (services w)); simpl; [|exact H].
  rewrite Forall_forall in *. intros x Hx. apply in_map_iff in Hx as [y [<- Hy]].
  destruct (has_id i y); simpl; auto.
Qed.

(** C7, as amended. For a form that passes the guard, against a store that
    answers, [createService] resolves to [undefined]: neither the record
    nor its id is returned. The record it stored, read back by
    [getService] under the id the store assigned, has the five fields of
    the form as the action coerces them, and [createdAt] equal to
    [updatedAt]. *)
Theorem createService_then_getService (formData : FormData) (w : World) :
  ~ invalid_form formData ->
  reachable w = true ->
  fresh_ids w ->
  fst (createService formData w) = Normal Undefined
  /\ exists r,
       services (snd (createService formData w)) = (services w ++ [r])%list
       /\ fst (getService (id r) (snd (createService formData w))) = Normal (Document r)
       /\ name r = as_string (FormData_get "name" formData)
       /\ description r = as_string (FormData_get "description" formData)
       /\ price r = JS.parseFloat (JS.ToString (FormData_get "price" formData))
       /\ isActive r = JS.strict_eq (FormData_get "isActive" formData) "true"
       /\ isFeatured r = JS.strict_eq (FormData_get "isFeatured" formData) "true"
       /\ createdAt r = updatedAt r.
Proof.
  intros H Hw Hf. rewrite (createService_stored _ _ H Hw).
  split; [reflexivity|].
  exists (created (form_data formData) w). split; [reflexivity|]. split.
  - rewrite getService_reachable by exact Hw. cbn [snd services].
    rewrite (find_appended _ _ (created (form_data formData) w));
      [reflexivity | apply find_fresh; exact Hf | reflexivity].
  - repeat split; reflexivity.
Qed.

(* ----------------------------------------------------------------- *)
(** ** [deleteService] *)

Lemma find_absent (i : ObjectId) (l : list Service) :
  (forall r, In r l -> id r <> i) -> find (has_id i) l = None.
Proof.
  induction l as [| x l IH]; intros H; simpl; [reflexivity|].
  unfold has_id at 1. destruct (N.eqb_spec (id x) i) as [E | E].
  - exfalso. apply (H x); simpl; auto.
  - apply IH. intros r Hr. apply H. simpl. auto.
Qed.

Lemma find_after_removal (i : ObjectId) (l : list Service) :
  find (has_id i) (filter (fun x => negb (has_id i x)) l) = None.
Proof.
  apply find_absent. intros r Hr. apply filter_In in Hr as [_ Hr].
  unfold has_id in Hr. apply negb_true_iff, N.eqb_neq in Hr. exact Hr.
Qed.

Lemma deleteService_absent (i : ObjectId) (w : World) :
  find (has_id i) (services w) = None ->
  fst (deleteService i w) = Normal delete_failed
  /\ services (snd (deleteService i w)) = services w.
Proof.
  intros H. unfold deleteService, try_catch, bind, prisma_service_delete.
  destruct (reachable w); [rewrite H|]; split; reflexivity.
Qed.

Lemma deleteService_done (i : ObjectId) (w : World) :
  fst (deleteService i w) = Normal Undefined ->
  services (snd (deleteService i w)) = filter (fun x => negb (has_id i x)) (services w).
Proof.
  unfold deleteService, try_catch, bind, prisma_service_delete.
  destruct (reachable w); [|discriminate].
  destruct (find (has_id i) (services w)); [reflexivity | discriminate].
Qed.

(** C8. [deleteService] on an id that no stored record has resolves to the
    failure object and removes nothing; and once a call for [id] has
    succeeded, the next call for the same [id], in whatever state the
    store's connection then is, resolves to the failure object, not to a
    second success. *)
Theorem deleteService_not_found (i : ObjectId) (w : World) :
  ((forall r, In r (services w) -> id r <> i) ->
     fst (deleteService i w) = Normal delete_failed
     /\ services (snd (deleteService i w)) = services w)
  /\ (fst (deleteService i w) = Normal Undefined ->
      forall w2, services w2 = services (snd (deleteService i w)) ->
                 fst (deleteService i w2) = Normal delete_failed).
Proof.
  split.
  - intros H. apply deleteService_absent, find_absent, H.
  - intros H w2 E. apply deleteService_absent.
    rewrite E, (deleteService_done _ _ H). apply find_after_removal.
Qed.

(* ----------------------------------------------------------------- *)
(** ** The debounced search of [ServiceFilters] *)

Module FiltersFacts.
Import Filters.

Lemma filter_none {A} (f : A -> bool) (l : list A) :
  (forall x, In x l -> f x = false) -> filter f l = [].
Proof.
  induction l as [| x l IH]; intros H; simpl; [reflexivity|].
  rewrite (H x) by (simpl; auto). apply IH. intros y Hy. apply H. simpl. auto.
Qed.

Lemma params_eqb_eq (p q : URLSearchParams) : params_eqb p q = true <-> p = q.
Proof.
  revert q. induction p as [| [k v] p IH]; intros [| [k' v'] q]; simpl;
    try (split; (reflexivity || discriminate)).
  rewrite !andb_true_iff, !String.eqb_eq, IH. split.
  - intros [[-> ->] ->]. reflexivity.
  - intros E. inversion E. auto.
Qed.

Lemma params_get_delete (name : string) (p : URLSearchParams) :
  params_get name (params_delete name p) = None.
Proof.
  induction p as [| [k v] p IH]; simpl; [reflexivity|].
  destruct (String.eqb k name) eqn:E; simpl; [exact IH|].
  rewrite E. exact IH.
Qed.

Lemma params_get_set (name value : string) (p : URLSearchParams) :
  params_get name (params_set name value p) = Some value.
Proof.
  induction p as [| [k v] p IH]; simpl.
  - rewrite String.eqb_refl. reflexivity.
  - destruct (String.eqb k name) eqn:E; simpl; rewrite E; [reflexivity | exact IH].
Qed.

(** The query of a commit holds the value under [search], unless the value
    is empty or is the text "all": then it holds no [search] at all. *)
Lemma createQueryString_search (p : URLSearchParams) (v : string) :
  params_get "search" (createQueryString p "search" v) =
  if String.eqb v "" || String.eqb v "all" then None else Some v.
Proof.
  unfold createQueryString.
  destruct (String.eqb v "" || String.eqb v "all").
  - apply params_get_delete.
  - apply params_get_set.
Qed.

(** When the effect runs, the timeout of its previous run is gone and
    exactly the new one is pending. *)
Lemma search_effect_timeouts (now : Z) (c : Component) :
  owned c -> timeouts (search_effect now c) = [scheduled now c].
Proof.
  intros Ho. unfold search_effect, scheduled. cbn [timeouts].
  replace (match cleanup c with
           | Some i => clearTimeout i (timeouts c)
           | None => timeouts c
           end) with (@nil Timeout); [reflexivity|].
  destruct (cleanup c) as [i|] eqn:E.
  - symmetry. apply filter_none. intros t Ht.
    apply Ho in Ht. rewrite E in Ht. injection Ht as <-.
    rewrite Nat.eqb_refl. reflexivity.
  - destruct (timeouts c) as [| t ts] eqn:Et; [reflexivity|].
    specialize (Ho t). rewrite Et, E in Ho. specialize (Ho (or_introl eq_refl)).
    discriminate.
Qed.

Lemma search_effect_owned (now : Z) (c : Component) :
  owned c -> owned (search_effect now c).
Proof.
  intros Ho t Ht. rewrite (search_effect_timeouts now c Ho) in Ht.
  destruct Ht as [<- | []]. reflexivity.
Qed.

Lemma search_effect_current (now : Z) (c : Component) :
  owned c -> current (search_effect now c).
Proof.
  intros Ho t Ht. rewrite (search_effect_timeouts now c Ho) in Ht.
  destruct Ht as [<- | []]. repeat split.
Qed.

(** [setLocalSearchTerm] *)
Lemma setLocal_fields (now : Z) (v : string) (c : Component) :
  localSearchTerm (setLocalSearchTerm now v c) = v
  /\ searchTerm (setLocalSearchTerm now v c) = searchTerm c
  /\ searchParams (setLocalSearchTerm now v c) = searchParams c
  /\ pushed (setLocalSearchTerm now v c) = pushed c.
Proof.
  unfold setLocalSearchTerm.
  destruct (String.eqb_spec v (localSearchTerm c)) as [-> | N]; repeat split.
Qed.

Lemma setLocal_changed (now : Z) (v : string) (c : Component) :
  owned c -> v <> localSearchTerm c ->
  timeouts (setLocalSearchTerm now v c) =
  [mkTimeout (next_timeoutId c) (now + delay) v (searchTerm c) (searchParams c)].
Proof.
  intros Ho N. unfold setLocalSearchTerm.
  destruct (String.eqb_spec v (localSearchTerm c)) as [E | _]; [contradiction|].
  rewrite search_effect_timeouts; [reflexivity | exact Ho].
Qed.

Lemma setLocal_owned (now : Z) (v : string) (c : Component) :
  owned c -> owned (setLocalSearchTerm now v c).
Proof.
  intros Ho. unfold setLocalSearchTerm.
  destruct (String.eqb v (localSearchTerm c)); [exact Ho|].
  apply search_effect_owned. exact Ho.
Qed.

Lemma setLocal_current (now : Z) (v : string) (c : Component) :
  owned c -> current c -> current (setLocalSearchTerm now v c).
Proof.
  intros Ho Hc. unfold setLocalSearchTerm.
  destruct (String.eqb v (localSearchTerm c)); [exact Hc|].
  apply search_effect_current. exact Ho.
Qed.

Lemma setLocal_quiet (t now : Z) (v : string) (c : Component) :
  owned c -> quiet_until t c -> t < now + delay ->
  quiet_until t (setLocalSearchTerm now v c).
Proof.
  intros Ho Hq Ht. unfold setLocalSearchTerm.
  destruct (String.eqb v (localSearchTerm c)); [exact Hq|].
  intros x Hx _. rewrite search_effect_timeouts in Hx by exact Ho.
  destruct Hx as [<- | []]. exact Ht.
Qed.

(** The callback of a timeout, and the timeouts due by some time. *)
Lemma fire_pushed (t : Timeout) (c : Component) :
  pushed (fire t c) =
  (pushed c ++
   if negb (String.eqb (seen_local t) (seen_searchTerm t))
   then [mkPush (due t) (createQueryString (seen_params t) "search" (seen_local t))]
   else [])%list.
Proof.
  unfold fire. destruct (negb (String.eqb (seen_local t) (seen_searchTerm t))); simpl.
  - reflexivity.
  - rewrite app_nil_r. reflexivity.
Qed.

Lemma fire_fields (t : Timeout) (c : Component) :
  searchTerm (fire t c) = searchTerm c
  /\ searchParams (fire t c) = searchParams c
  /\ localSearchTerm (fire t c) = localSearchTerm c
  /\ cleanup (fire t c) = cleanup c
  /\ timeouts (fire t c) = clearTimeout (timeoutId t) (timeouts c).
Proof.
  unfold fire. destruct (negb (String.eqb (seen_local t) (seen_searchTerm t)));
    repeat split.
Qed.

Lemma fired_fields (l : list Timeout) (c : Component) :
  let c' := fold_left (fun c t => fire t c) l c in
  searchTerm c' = searchTerm c
  /\ searchParams c' = searchParams c
  /\ localSearchTerm c' = localSearchTerm c
  /\ cleanup c' = cleanup c
  /\ (forall x, In x (timeouts c') -> In x (timeouts c))
  /\ ((forall t, In t l -> seen_local t = seen_searchTerm t) -> pushed c' = pushed c).
Proof.
  revert c. induction l as [| t l IH]; intros c; simpl.
  - repeat split; auto.
  - destruct (IH (fire t c)) as [H1 [H2 [H3 [H4 [H5 H6]]]]].
    destruct (fire_fields t c) as [F1 [F2 [F3 [F4 F5]]]].
    repeat split; try congruence.
    + intros x Hx. apply H5 in Hx. rewrite F5 in Hx.
      apply filter_In in Hx. tauto.
    + intros Hl. rewrite H6 by auto. rewrite fire_pushed.
      rewrite (Hl t (or_introl eq_refl)), String.eqb_refl. apply app_nil_r.
Qed.

Lemma advance_fields (now : Z) (c : Component) :
  searchTerm (advance now c) = searchTerm c
  /\ searchParams (advance now c) = searchParams c
  /\ localSearchTerm (advance now c) = localSearchTerm c
  /\ cleanup (advance now c) = cleanup c
  /\ (forall x, In x (timeouts (advance now c)) -> In x (timeouts c)).
Proof.
  destruct (fired_fields (filter (fun t => due t <=? now) (timeouts c)) c)
    as [H1 [H2 [H3 [H4 [H5 _]]]]].
  unfold advance. auto.
Qed.

Lemma advance_quiet (now : Z) (c : Component) :
  quiet_until now c -> pushed (advance now c) = pushed c.
Proof.
  intros Hq.
  destruct (fired_fields (filter (fun t => due t <=? now) (timeouts c)) c)
    as [_ [_ [_ [_ [_ H]]]]].
  apply H. intros t Ht. apply filter_In in Ht as [Ht Hd].
  destruct (string_dec (seen_local t) (seen_searchTerm t)) as [E | N]; [exact E|].
  apply (Hq t Ht) in N. apply Z.leb_le in Hd. lia.
Qed.

Lemma advance_owned (now : Z) (c : Component) : owned c -> owned (advance now c).
Proof.
  intros Ho t Ht. destruct (advance_fields now c) as [_ [_ [_ [H4 H5]]]].
  rewrite H4. apply Ho, H5, Ht.
Qed.

Lemma advance_current (now : Z) (c : Component) : current c -> current (advance now c).
Proof.
  intros Hc t Ht. destruct (advance_fields now c) as [H1 [H2 [H3 [_ H5]]]].
  rewrite H1, H2, H3. apply Hc, H5, Ht.
Qed.

Lemma advance_quiet_until (t now : Z) (c : Component) :
  quiet_until t c -> quiet_until t (advance now c).
Proof.
  intros Hq x Hx. destruct (advance_fields now c) as [_ [_ [_ [_ H5]]]].
  apply Hq, H5, Hx.
Qed.

Lemma quiet_until_earlier (t t' : Z) (c : Component) :
  t' <= t -> quiet_until t c -> quiet_until t' c.
Proof. intros Ht Hq x Hx N. specialize (Hq x Hx N). lia. Qed.

(** With the input showing the active term, no pending timeout pushes. *)
Lemma current_quiet (t : Z) (c : Component) :
  current c -> localSearchTerm c = searchTerm c -> quiet_until t c.
Proof.
  intros Hc E x Hx N. destruct (Hc x Hx) as [H1 [H2 _]]. congruence.
Qed.

(** The invariants hold from the first render on. *)
Lemma receive_props_inv (now : Z) (s : string) (p : URLSearchParams) (c : Component) :
  owned c -> current c ->
  owned (receive_props now s p c) /\ current (receive_props now s p c).
Proof.
  intros Ho Hc. unfold receive_props.
  set (c1 := mkComponent s p (localSearchTerm c) (timeouts c) (cleanup c)
                         (next_timeoutId c) (pushed c)).
  assert (Ho1 : owned c1) by exact Ho.
  destruct (String.eqb_spec s (searchTerm c)) as [Es | Ns]; cbn [negb orb].
  - destruct (params_eqb p (searchParams c)) eqn:Ep; cbn [negb].
    + apply params_eqb_eq in Ep. subst s p. split; [exact Ho1|].
      intros t Ht. apply (Hc t Ht).
    + split; [apply search_effect_owned | apply search_effect_current]; exact Ho1.
  - split.
    + apply setLocal_owned, search_effect_owned, Ho1.
    + apply setLocal_current;
        [apply search_effect_owned | apply search_effect_current]; exact Ho1.
Qed.

Lemma step_inv (c : Component) (e : Z * Event) :
  owned c -> current c -> owned (step c e) /\ current (step c e).
Proof.
  intros Ho Hc. destruct e as [now [v | s p | v]]; cbn [step].
  - split; [apply setLocal_owned | apply setLocal_current];
      auto using advance_owned, advance_current.
  - apply receive_props_inv; auto using advance_owned, advance_current.
  - split.
    + exact (advance_owned now c Ho).
    + exact (advance_current now c Hc).
Qed.

Lemma mount_inv (now : Z) (s : string) (p : URLSearchParams) :
  owned (mount now s p) /\ current (mount now s p).
Proof.
  unfold mount.
  set (c := mkComponent s p s [] None 0 []).
  assert (Ho : owned c) by (intros t []).
  split.
  - apply setLocal_owned, search_effect_owned, Ho.
  - apply setLocal_current; [apply search_effect_owned | apply search_effect_current]; exact Ho.
Qed.

Lemma reaches_inv (c : Component) : reaches c -> owned c /\ current c.
Proof.
  induction 1 as [now s p | c e _ [Ho Hc]].
  - apply mount_inv.
  - apply step_inv; assumption.
Qed.

Lemma reaches_run (events : list (Z * Event)) (c : Component) :
  reaches c -> reaches (run events c).
Proof.
  revert c. induction events as [| e events IH]; intros c H; simpl.
  - exact H.
  - apply IH. constructor. exact H.
Qed.

Lemma mount_fields (now : Z) (s : string) (p : URLSearchParams) :
  localSearchTerm (mount now s p) = s
  /\ searchTerm (mount now s p) = s
  /\ searchParams (mount now s p) = p
  /\ pushed (mount now s p) = [].
Proof.
  unfold mount.
  destruct (setLocal_fields now s
              (search_effect now (mkComponent s p s [] None 0 [])))
    as [H1 [H2 [H3 H4]]].
  rewrite H1, H2, H3, H4. repeat split.
Qed.

(** One change of the input at [now], seen from a state in which nothing
    that would push is due by then. *)
Lemma typed_step (q now : Z) (v : string) (c : Component) :
  owned c -> current c -> quiet_until q c -> now <= q -> q < now + delay ->
  let c' := step c (now, Typed v) in
  owned c' /\ current c' /\ quiet_until q c'
  /\ localSearchTerm c' = v
  /\ searchTerm c' = searchTerm c
  /\ searchParams c' = searchParams c
  /\ pushed c' = pushed c.
Proof.
  intros Ho Hc Hq Hn Hd. cbn [step]. unfold handleSearchChange.
  destruct (setLocal_fields now v (advance now c)) as [H1 [H2 [H3 H4]]].
  destruct (advance_fields now c) as [A1 [A2 _]].
  split; [apply setLocal_owned, advance_owned, Ho|].
  split; [apply setLocal_current; [apply advance_owned | apply advance_current]; assumption|].
  split; [apply setLocal_quiet; [apply advance_owned | apply advance_quiet_until |]; assumption|].
  repeat split; try congruence.
  rewrite H4. apply advance_quiet. apply (quiet_until_earlier q); assumption.
Qed.

Lemma typed_reschedules (now : Z) (v : string) (c : Component) :
  owned c -> v <> localSearchTerm c ->
  exists i,
    timeouts (step c (now, Typed v)) =
    [mkTimeout i (now + 1500) v (searchTerm c) (searchParams c)].
Proof.
  intros Ho N. cbn [step]. unfold handleSearchChange.
  destruct (advance_fields now c) as [A1 [A2 [A3 _]]].
  exists (next_timeoutId (advance now c)).
  rewrite setLocal_changed; [| apply advance_owned, Ho | congruence].
  rewrite A1, A2. reflexivity.
Qed.

(** The state after the three changes: nothing pushed yet, and one timeout
    pending, due at 2500 ms, closed over the value typed at 1000 ms. *)
Lemma three_changes_state (t0 : Z) (s0 : string) (p : URLSearchParams)
                          (v0 v1 v2 : string) :
  v2 <> v1 ->
  pushed (three_changes t0 s0 p v0 v1 v2) = []
  /\ exists i, timeouts (three_changes t0 s0 p v0 v1 v2) = [mkTimeout i 2500 v2 s0 p].
Proof.
  intros N. unfold three_changes, run. cbn [fold_left].
  destruct (mount_inv t0 s0 p) as [Ho0 Hc0].
  destruct (mount_fields t0 s0 p) as [L0 [S0 [P0 U0]]].
  assert (Q0 : quiet_until 1000 (mount t0 s0 p)).
  { apply current_quiet; [exact Hc0 | congruence]. }
  destruct (typed_step 1000 0 v0 _ Ho0 Hc0 Q0) as [Ho1 [Hc1 [Q1 [L1 [S1 [P1 U1]]]]]];
    [lia | unfold delay; lia |].
  destruct (typed_step 1000 500 v1 _ Ho1 Hc1 Q1) as [Ho2 [Hc2 [Q2 [L2 [S2 [P2 U2]]]]]];
    [lia | unfold delay; lia |].
  destruct (typed_step 1000 1000 v2 _ Ho2 Hc2 Q2) as [_ [_ [_ [_ [_ [_ U3]]]]]];
    [lia | unfold delay; lia |].
  split; [congruence|].
  destruct (typed_reschedules 1000 v2 _ Ho2) as [i Hi]; [congruence|].
  exists i. rewrite Hi, S2, S1, S0, P2, P1, P0. reflexivity.
Qed.

(** C9. After a first render with active search term [s0], let the input
    change at 0 ms, 500 ms and 1000 ms, the last change being a change of
    the staged value, and nothing happen afterwards. Then up to 2500 ms
    nothing has been pushed, and from 2500 ms on exactly one push has been
    made, at 2500 ms, built from the value staged at 1000 ms, provided
    that value differs from the active term; if it equals the active term
    nothing is pushed at all. In every state the component reaches, a
    change of the staged value leaves exactly one timeout pending, the new
    one, due 1500 ms later (the earlier one is cleared); and while the
    staged value equals the active term no timeout pushes. *)
Theorem debounce_three_changes (t0 : Z) (s0 : string) (p : URLSearchParams)
                               (v0 v1 v2 : string) :
  v2 <> v1 ->
  (forall T,
     pushed (advance T (three_changes t0 s0 p v0 v1 v2)) =
     if (2500 <=? T) && negb (String.eqb v2 s0)
     then [mkPush 2500 (createQueryString p "search" v2)]
     else [])
  /\ params_get "search" (createQueryString p "search" v2) =
     (if String.eqb v2 "" || String.eqb v2 "all" then None else Some v2)
  /\ (forall c now v, reaches c -> v <> localSearchTerm c ->
        exists i,
          timeouts (step c (now, Typed v)) =
          [mkTimeout i (now + 1500) v (searchTerm c) (searchParams c)])
  /\ (forall c T, reaches c -> localSearchTerm c = searchTerm c ->
        pushed (advance T c) = pushed c).
Proof.
  intros N. split; [|split; [|split]].
  - intros T. destruct (three_changes_state t0 s0 p v0 v1 v2 N) as [U [i Hi]].
    unfold advance. rewrite Hi. cbn [filter due].
    destruct (2500 <=? T); cbn [fold_left andb].
    + rewrite fire_pushed, U. cbn.
      destruct (String.eqb v2 s0); reflexivity.
    + exact U.
  - apply createQueryString_search.
  - intros c now v Hr Hv. apply reaches_inv in Hr as [Ho _].
    apply typed_reschedules; assumption.
  - intros c T Hr E. apply reaches_inv in Hr as [_ Hc].
    apply advance_quiet, current_quiet; assumption.
Qed.

End FiltersFacts.

(* ================================================================= *)
(** * The properties on the sample collection *)

Lemma valid_by_guard (formData : FormData) :
  negb (JS.truthy (FormData_get "name" formData))
  || negb (JS.truthy (FormData_get "description" formData))
  || JS.isNaN (JS.parseFloat (JS.ToString (FormData_get "price" formData))) = false ->
  ~ invalid_form formData.
Proof.
  intros G I. apply guard_iff in I. rewrite G in I. discriminate.
Defined.

(** Status filter "true" on the two sample records: the active one is
    listed, the inactive one is not. *)
Lemma getServices_status_filter_witness :
  reachable two_services = true
  /\ In "true" ["all"; "true"; "false"]
  /\ In web_design (services two_services)
  /\ (appears web_design
        (getServices ascii_lower None (FilterActive.make "true") two_services)
      <-> status_accepts "true" web_design).
Proof.
  split; [reflexivity|]. split; [simpl; auto|]. split; [simpl; auto|].
  apply (getServices_status_filter ascii_lower two_services "true" web_design);
    [reflexivity | simpl; auto | simpl; auto].
Defined.

Lemma getServices_search_filter_witness :
  reachable two_services = true
  /\ In consulting (services two_services)
  /\ (appears consulting
        (getServices ascii_lower (Some "SESSION") (FilterActive.make "all") two_services)
      <-> no_text (Some "SESSION")
          \/ occurs_ignoring_case ascii_lower "SESSION" (name consulting)
          \/ occurs_ignoring_case ascii_lower "SESSION" (description consulting)).
Proof.
  split; [reflexivity|]. split; [simpl; auto|].
  apply (getServices_search_filter ascii_lower two_services (Some "SESSION") consulting);
    [reflexivity | simpl; auto].
Defined.

(** C3, as stated, fails: two records created within one millisecond come
    back in the order of the collection, the lower id first, which is not
    the order "ties by id descending". *)
Lemma getServices_ties_keep_store_order :
  fst (getServices ascii_lower None (FilterActive.make "all") two_services)
  = Normal [consulting; web_design]
  /\ createdAt consulting = createdAt web_design
  /\ (id consulting < id web_design)%N
  /\ ~ StronglySorted newer_then_higher_id [consulting; web_design].
Proof.
  split; [reflexivity|]. split; [reflexivity|]. split; [reflexivity|].
  intros H. inversion H as [| a l _ Hall]. subst.
  inversion Hall as [| b l' Hab _]. subst.
  destruct Hab as [Hlt | [_ Hle]].
  - simpl in Hlt. lia.
  - simpl in Hle. lia.
Qed.

Lemma getServices_failure_is_empty_witness :
  reachable two_services_down = false
  /\ fst (getServices ascii_lower (Some "web") (FilterActive.make "all") two_services_down)
     = Normal [].
Proof.
  split; [reflexivity|].
  apply (getServices_failure_is_empty ascii_lower two_services_down (Some "web")
           (FilterActive.make "all")).
  reflexivity.
Defined.

(** The term " web " with its spaces: "Web Design" has no such run, "Sites
    for the web " has one. *)
Lemma getServices_term_untrimmed_witness :
  reachable two_services = true
  /\ In web_design (services two_services)
  /\ whitespace_only " web " = false
  /\ contains_insensitive ascii_lower " web " (name web_design) = false
  /\ contains_insensitive ascii_lower (JS.trim " web ") (name web_design) = true
  /\ (appears web_design
        (getServices ascii_lower (Some " web ") (FilterActive.make "all") two_services)
      <-> occurs_ignoring_case ascii_lower " web " (name web_design)
          \/ occurs_ignoring_case ascii_lower " web " (description web_design)).
Proof.
  split; [reflexivity|]. split; [simpl; auto|]. split; [reflexivity|].
  split; [reflexivity|]. split; [reflexivity|].
  apply (getServices_term_untrimmed ascii_lower two_services " web "
           (FilterActive.make "all") web_design);
    [reflexivity | simpl; auto | reflexivity].
Defined.

(** C5, as stated, fails: a price of -5 is not a finite non-negative
    number, yet the guard lets the form through and a record with that
    price is written. *)
Lemma negative_price_is_stored :
  finite_nonnegative (JS.parseFloat "-5") = false
  /\ fst (createService negative_price_form world0) = Normal Undefined
  /\ map price (services (snd (createService negative_price_form world0)))
     = [JS.Decimal true 5 0]
  /\ fst (updateService 0%N negative_price_form two_services) = Normal Undefined.
Proof. repeat split. Qed.

Lemma validation_guard_witness :
  invalid_form nameless_form
  /\ fst (createService nameless_form world0) = Normal (ErrorObject validation_message)
  /\ snd (createService nameless_form world0) = world0.
Proof.
  assert (I : invalid_form nameless_form) by (left; right; reflexivity).
  split; [exact I|].
  destruct (validation_guard nameless_form 0%N world0) as [[_ Hc] [_ Hs]].
  split; [exact (Hc I) | exact (proj1 (Hs I))].
Defined.

(** C6, as stated, fails: an [isActive] field that is neither "true" nor
    "false" gives a record that is not active. *)
Lemma odd_isActive_gives_false :
  FormData_get "isActive" odd_flag_form = Some "yes"
  /\ fst (createService odd_flag_form world0) = Normal Undefined
  /\ map isActive (services (snd (createService odd_flag_form world0))) = [false].
Proof. repeat split. Qed.

Lemma createService_flags_witness :
  ~ invalid_form odd_flag_form
  /\ reachable world0 = true
  /\ exists r,
       services (snd (createService odd_flag_form world0)) = (services world0 ++ [r])%list
       /\ (isFeatured r = true <-> FormData_get "isFeatured" odd_flag_form = Some "true")
       /\ (forall v, FormData_get "isActive" odd_flag_form = Some v ->
                     (isActive r = true <-> v = "true")).
Proof.
  assert (V : ~ invalid_form odd_flag_form) by (apply valid_by_guard; reflexivity).
  split; [exact V|]. split; [reflexivity|].
  apply (createService_flags odd_flag_form world0 V). reflexivity.
Defined.

(** C7, as stated, fails: a successful [createService] resolves to
    [undefined], not to the record it created. *)
Lemma createService_returns_nothing :
  fst (createService consulting_form world0) = Normal Undefined
  /\ services (snd (createService consulting_form world0)) = [consulting]
  /\ fst (createService consulting_form world0) <> Normal (Document consulting).
Proof. repeat split. discriminate. Qed.

Lemma createService_then_getService_witness :
  ~ invalid_form web_form
  /\ reachable (snd (createService consulting_form world0)) = true
  /\ fresh_ids (snd (createService consulting_form world0))
  /\ fst (createService web_form (snd (createService consulting_form world0)))
     = Normal Undefined.
Proof.
  assert (V : ~ invalid_form web_form) by (apply valid_by_guard; reflexivity).
  assert (F : fresh_ids (snd (createService consulting_form world0))).
  { apply createService_fresh_ids, fresh_ids_world0. }
  split; [exact V|]. split; [reflexivity|]. split; [exact F|].
  apply (createService_then_getService web_form
           (snd (createService consulting_form world0)) V eq_refl F).
Defined.

Lemma deleteService_not_found_witness :
  (forall r, In r (services two_services) -> id r <> 7%N)
  /\ fst (deleteService 7%N two_services) = Normal delete_failed
  /\ fst (deleteService 1%N two_services) = Normal Undefined
  /\ fst (deleteService 1%N (snd (deleteService 1%N two_services))) = Normal delete_failed.
Proof.
  assert (A : forall r, In r (services two_services) -> id r <> 7%N).
  { intros r [<- | [<- | []]]; discriminate. }
  destruct (deleteService_not_found 7%N two_services) as [H7 _].
  destruct (deleteService_not_found 1%N two_services) as [_ H1].
  split; [exact A|]. split; [exact (proj1 (H7 A))|]. split; [reflexivity|].
  exact (H1 eq_refl _ eq_refl).
Defined.

Lemma debounce_three_changes_witness :
  "web" <> "we"
  /\ Filters.pushed
       (Filters.advance 2500
          (Filters.three_changes 0 "" [("status", "true")] "w" "we" "web"))
     = [Filters.mkPush 2500 [("status", "true"); ("search", "web")]]
  /\ Filters.pushed
       (Filters.advance 2499
          (Filters.three_changes 0 "" [("status", "true")] "w" "we" "web"))
     = [].
Proof.
  assert (N : "web" <> "we") by discriminate.
  destruct (FiltersFacts.debounce_three_changes 0 "" [("status", "true")] "w" "we" "web" N)
    as [H _].
  split; [exact N|]. split; [exact (H 2500) | exact (H 2499)].
Defined.

(* ================================================================= *)
(** * Further properties of the actions *)

Lemma find_some_id (i : ObjectId) (l : list Service) (r : Service) :
  find (has_id i) l = Some r -> In r l /\ id r = i.
Proof.
  intros H. apply find_some in H as [Hin Hid].
  split; [exact Hin | apply N.eqb_eq; exact Hid].
Qed.

Lemma find_present (i : ObjectId) (l : list Service) (r : Service) :
  In r l -> id r = i -> exists r', find (has_id i) l = Some r'.
Proof.
  intros Hin Hid. destruct (find (has_id i) l) as [r' |] eqn:E; [eauto|].
  exfalso. apply (find_none _ _ E) in Hin.
  unfold has_id in Hin. rewrite Hid, N.eqb_refl in Hin. discriminate.
Qed.

Lemma find_none_id (i : ObjectId) (l : list Service) :
  find (has_id i) l = None <-> (forall r, In r l -> id r <> i).
Proof.
  split.
  - intros E r Hin Hid. destruct (find_present i l r Hin Hid) as [r' E']. congruence.
  - apply find_absent.
Qed.

(** X1. [getService] resolves to a document only if that document is
    stored under the id asked for, to [null] exactly when the store answers
    and holds no record of that id, and to the error object exactly when
    the store does not answer; it never throws and writes nothing. *)
Theorem getService_replies (i : ObjectId) (w : World) :
  (forall r, fst (getService i w) = Normal (Document r) -> In r (services w) /\ id r = i)
  /\ (fst (getService i w) = Normal Null <->
      reachable w = true /\ forall r, In r (services w) -> id r <> i)
  /\ (fst (getService i w) = Normal (ErrorObject "Failed to get service") <->
      reachable w = false)
  /\ (forall r, In r (services w) -> id r = i -> reachable w = true ->
                exists r', fst (getService i w) = Normal (Document r') /\ id r' = i)
  /\ untouched w (snd (getService i w)).
Proof.
  unfold getService, try_catch, bind, prisma_service_findUnique, ret, untouched.
  destruct (reachable w) eqn:Hw; cbn [fst snd].
  - destruct (find (has_id i) (services w)) as [r0 |] eqn:E.
    + apply find_some_id in E as [Hin Hid].
      split; [intros r H; injection H as <-; auto|].
      split; [split; [discriminate | intros [_ H]; elim (H r0 Hin Hid)]|].
      split; [split; discriminate|].
      split; [intros r _ _ _; exists r0; auto | auto].
    + split; [discriminate|].
      split; [split; [intros _; split; [reflexivity | apply (proj1 (find_none_id i (services w)) E)] | reflexivity]|].
      split; [split; discriminate|].
      split; [|auto].
      intros r Hin Hid _. elim (proj1 (find_none_id i (services w)) E r Hin Hid).
  - split; [discriminate|].
    split; [split; [discriminate | intros [H _]; discriminate]|].
    split; [split; reflexivity|].
    split; [intros r _ _ H; discriminate | simpl; auto].
Qed.

Lemma createService_settles (formData : FormData) (w : World) :
  all_or_nothing w [Tag serviceTag] (createService formData w).
Proof.
  unfold all_or_nothing, untouched, createService.
  destruct (negb _ || negb _ || JS.isNaN _).
  - right. eexists. simpl. auto.
  - unfold try_catch, bind, prisma_service_create.
    destruct (reachable w).
    + left. simpl. auto.
    + right. eexists. simpl. auto.
Qed.

Lemma updateService_settles (i : ObjectId) (formData : FormData) (w : World) :
  all_or_nothing w [Tag serviceTag] (updateService i formData w).
Proof.
  unfold all_or_nothing, untouched, updateService.
  destruct (negb _ || negb _ || JS.isNaN _).
  - right. eexists. simpl. auto.
  - unfold try_catch, bind, prisma_service_update.
    destruct (reachable w); [|right; eexists; simpl; auto].
    destruct (find (has_id i) (services w)).
    + left. simpl. auto.
    + right. eexists. simpl. auto.
Qed.

Lemma deleteService_settles (i : ObjectId) (w : World) :
  all_or_nothing w [Tag serviceTag; Path "/dashboard/services"] (deleteService i w).
Proof.
  unfold all_or_nothing, untouched, deleteService.
  unfold try_catch, bind, prisma_service_delete.
  destruct (reachable w); [|right; eexists; simpl; auto].
  destruct (find (has_id i) (services w)).
  - left. simpl. rewrite <- app_assoc. auto.
  - right. eexists. simpl. auto.
Qed.

(** X2. Each of the three mutations either goes through, resolving to
    [undefined] and invalidating the "services" tag ([deleteService] also
    the path of the listing), or resolves to an error object, and then it
    has written nothing and invalidated nothing. None of them throws. *)
Theorem mutations_all_or_nothing (formData : FormData) (i : ObjectId) (w : World) :
  all_or_nothing w [Tag "services"] (createService formData w)
  /\ all_or_nothing w [Tag "services"] (updateService i formData w)
  /\ all_or_nothing w [Tag "services"; Path "/dashboard/services"] (deleteService i w).
Proof.
  split; [apply createService_settles|].
  split; [apply updateService_settles | apply deleteService_settles].
Qed.

Lemma has_id_overwrite (j : ObjectId) (d : ServiceData) (t : Z) (x : Service) :
  has_id j (overwrite d t x) = has_id j x.
Proof. reflexivity. Qed.

Lemma find_overwritten (i j : ObjectId) (d : ServiceData) (t : Z) (l : list Service) :
  find (has_id j) (map (fun x => if has_id i x then overwrite d t x else x) l) =
  option_map (fun x => if has_id i x then overwrite d t x else x) (find (has_id j) l).
Proof.
  induction l as [| x l IH]; simpl; [reflexivity|].
  replace (has_id j (if has_id i x then overwrite d t x else x)) with (has_id j x)
    by (destruct (has_id i x); reflexivity).
  destruct (has_id j x); [reflexivity | exact IH].
Qed.

Lemma updateService_stored (i : ObjectId) (formData : FormData) (w : World) (r0 : Service) :
  ~ invalid_form formData ->
  reachable w = true ->
  find (has_id i) (services w) = Some r0 ->
  fst (updateService i formData w) = Normal Undefined
  /\ reachable (snd (updateService i formData w)) = true
  /\ services (snd (updateService i formData w)) =
     map (fun x => if has_id i x then overwrite (form_data formData) (clock w) x else x)
         (services w).
Proof.
  intros H Hw E. unfold updateService. rewrite (guard_passes _ H).
  unfold try_catch, bind, prisma_service_update, with_services.
  rewrite Hw, E. repeat split.
Qed.

(** X3. When [updateService] is given a form that passes the guard and the
    id of a stored record, against a store that answers, it resolves to
    [undefined]; [getService] of that id then yields the record with the
    five fields of the form as coerced, the same [id] and [createdAt], and
    [updatedAt] set to the time of the request; every other id reads as
    before and the collection has as many records as before. *)
Theorem updateService_then_getService
  (i : ObjectId) (formData : FormData) (w : World) (r0 : Service) :
  ~ invalid_form formData ->
  fst (getService i w) = Normal (Document r0) ->
  fst (updateService i formData w) = Normal Undefined
  /\ (exists r,
        fst (getService i (snd (updateService i formData w))) = Normal (Document r)
        /\ id r = i
        /\ createdAt r = createdAt r0
        /\ updatedAt r = clock w
        /\ name r = as_string (FormData_get "name" formData)
        /\ description r = as_string (FormData_get "description" formData)
        /\ price r = JS.parseFloat (JS.ToString (FormData_get "price" formData))
        /\ isActive r = JS.strict_eq (FormData_get "isActive" formData) "true"
        /\ isFeatured r = JS.strict_eq (FormData_get "isFeatured" formData) "true")
  /\ (forall j, j <> i ->
        fst (getService j (snd (updateService i formData w))) = fst (getService j w))
  /\ List.length (services (snd (updateService i formData w))) = List.length (services w).
Proof.
  intros H G.
  assert (Hw : reachable w = true).
  { destruct (reachable w) eqn:Hw; [reflexivity|].
    unfold getService, try_catch, bind, prisma_service_findUnique in G.
    rewrite Hw in G. discriminate. }
  assert (E : find (has_id i) (services w) = Some r0).
  { rewrite (getService_reachable i w Hw) in G.
    destruct (find (has_id i) (services w)); [|discriminate].
    injection G as <-. reflexivity. }
  destruct (updateService_stored i formData w r0 H Hw E) as [U [Hw' S]].
  split; [exact U|]. split; [|split].
  - exists (overwrite (form_data formData) (clock w) r0).
    rewrite (getService_reachable _ _ Hw'), S, find_overwritten, E.
    destruct (find_some_id _ _ _ E) as [_ Hid].
    cbn [option_map]. unfold has_id at 1. rewrite Hid, N.eqb_refl.
    repeat split. exact Hid.
  - intros j Hj.
    rewrite (getService_reachable _ _ Hw'), (getService_reachable _ _ Hw), S, find_overwritten.
    destruct (find (has_id j) (services w)) as [x |] eqn:Ej; [|reflexivity].
    destruct (find_some_id _ _ _ Ej) as [_ Hid].
    cbn [option_map]. unfold has_id. rewrite Hid.
    destruct (N.eqb_spec j i); [contradiction | reflexivity].
  - rewrite S. apply length_map.
Qed.

(** X4. [updateService] with a form that passes the guard but an id that
    no stored record has resolves to the error object "Failed to update
    service": no record is created under that id, nothing is written and
    nothing invalidated. *)
Theorem updateService_missing_id (i : ObjectId) (formData : FormData) (w : World) :
  ~ invalid_form formData ->
  (forall r, In r (services w) -> id r <> i) ->
  fst (updateService i formData w) = Normal (ErrorObject "Failed to update service")
  /\ untouched w (snd (updateService i formData w)).
Proof.
  intros H A. apply (proj2 (find_none_id i (services w))) in A.
  unfold updateService. rewrite (guard_passes _ H).
  unfold try_catch, bind, prisma_service_update, untouched.
  destruct (reachable w); [rewrite A|]; simpl; auto.
Qed.

(* ----------------------------------------------------------------- *)
(** ** Ordering and filtering *)

Lemma insert_desc_filter_out (p : Service -> bool) (r : Service) (l : list Service) :
  p r = false -> filter p (insert_desc r l) = filter p l.
Proof.
  intros Hr. induction l as [| x l IH]; simpl.
  - rewrite Hr. reflexivity.
  - destruct (createdAt x <=? createdAt r); simpl.
    + rewrite Hr. reflexivity.
    + rewrite IH. reflexivity.
Qed.

Lemma insert_desc_front (r : Service) (l : list Service) :
  Forall (fun x => createdAt x <= createdAt r) l -> insert_desc r l = r :: l.
Proof.
  intros H. destruct l as [| x l]; simpl; [reflexivity|].
  inversion H as [| ? ? Hx _]; subst.
  apply Z.leb_le in Hx. rewrite Hx. reflexivity.
Qed.

Lemma insert_desc_filter_in (p : Service -> bool) (r : Service) (l : list Service) :
  StronglySorted not_older l ->
  p r = true ->
  filter p (insert_desc r l) = insert_desc r (filter p l).
Proof.
  intros Hs Hr. induction Hs as [| x l Hs IH Hall].
  - simpl. rewrite Hr. reflexivity.
  - cbn [insert_desc]. destruct (createdAt x <=? createdAt r) eqn:E.
    + rewrite (insert_desc_front r (filter p (x :: l))).
      * cbn [filter]. rewrite Hr. reflexivity.
      * apply Z.leb_le in E. apply Forall_forall. intros y Hy.
        apply filter_In in Hy as [Hy _]. destruct Hy as [<- | Hy]; [exact E|].
        rewrite Forall_forall in Hall. specialize (Hall y Hy).
        unfold not_older in Hall. lia.
    + cbn [filter]. rewrite IH. destruct (p x); [|reflexivity].
      cbn [insert_desc]. rewrite E. reflexivity.
Qed.

(** Leaving records out before or after the ordering comes to the same. *)
Lemma orderBy_filter (p : Service -> bool) (l : list Service) :
  filter p (orderBy_createdAt_desc l) = orderBy_createdAt_desc (filter p l).
Proof.
  induction l as [| a l IH]; simpl; [reflexivity|].
  destruct (p a) eqn:Ha.
  - rewrite insert_desc_filter_in by (apply orderBy_sorted || exact Ha).
    rewrite IH. reflexivity.
  - rewrite insert_desc_filter_out by exact Ha. exact IH.
Qed.

Lemma filter_swap {A} (f g : A -> bool) (l : list A) :
  filter f (filter g l) = filter g (filter f l).
Proof.
  induction l as [| x l IH]; simpl; [reflexivity|].
  destruct (f x) eqn:Ef, (g x) eqn:Eg; simpl; rewrite ?Ef, ?Eg, IH; reflexivity.
Qed.

Lemma find_other_id (i j : ObjectId) (l : list Service) :
  j <> i ->
  find (has_id j) (filter (fun x => negb (has_id i x)) l) = find (has_id j) l.
Proof.
  intros N. induction l as [| x l IH]; simpl; [reflexivity|].
  destruct (has_id i x) eqn:Ei; simpl.
  - assert (Ej : has_id j x = false).
    { unfold has_id in *. apply N.eqb_eq in Ei. apply N.eqb_neq. congruence. }
    rewrite Ej. exact IH.
  - destruct (has_id j x); [reflexivity | exact IH].
Qed.

Lemma deleteService_removed (i : ObjectId) (w : World) :
  fst (deleteService i w) = Normal Undefined ->
  reachable w = true
  /\ reachable (snd (deleteService i w)) = true
  /\ services (snd (deleteService i w)) = filter (fun x => negb (has_id i x)) (services w).
Proof.
  unfold deleteService, try_catch, bind, prisma_service_delete.
  destruct (reachable w) eqn:Hw; [|discriminate].
  destruct (find (has_id i) (services w)); [|discriminate].
  intros _. simpl. auto.
Qed.

Section Listing.

Variable fold : ascii -> ascii.

(** X5. After [deleteService] has succeeded for an id, [getService] of
    that id resolves to [null], every other id reads as before, and
    [getServices], under any search term and status filter, resolves to
    what it resolved to before with the records of that id left out, the
    others in the same order. *)
Theorem deleteService_then_reads (i : ObjectId) (w : World) :
  fst (deleteService i w) = Normal Undefined ->
  fst (getService i (snd (deleteService i w))) = Normal Null
  /\ (forall j, j <> i ->
        fst (getService j (snd (deleteService i w))) = fst (getService j w))
  /\ (forall s f l,
        fst (getServices fold s f w) = Normal l ->
        fst (getServices fold s f (snd (deleteService i w))) =
        Normal (filter (fun x => negb (has_id i x)) l)).
Proof.
  intros H. destruct (deleteService_removed i w H) as [Hw [Hw' S]].
  split; [|split].
  - rewrite (getService_reachable _ _ Hw'), S, find_after_removal. reflexivity.
  - intros j Hj.
    rewrite (getService_reachable _ _ Hw'), (getService_reachable _ _ Hw), S.
    rewrite (find_other_id i j _ Hj). reflexivity.
  - intros s f l E.
    rewrite getServices_reachable in E by exact Hw. injection E as <-.
    rewrite getServices_reachable by exact Hw'. cbn [fst].
    rewrite S, orderBy_filter, filter_swap. reflexivity.
Qed.

(** X6. After [createService] has stored a record ([formData] passes the
    guard, the store answers), [getServices] under any search term and
    status filter lists what it listed before and, if the new record
    satisfies the filter, the new record; in particular with no search
    term and status "all" the new record is listed. *)
Theorem createService_then_getServices
  (formData : FormData) (w : World) (s : JS.nullable) (f : FilterActive.t) (x : Service) :
  ~ invalid_form formData ->
  reachable w = true ->
  (appears x (getServices fold s f (snd (createService formData w))) <->
     appears x (getServices fold s f w)
     \/ (x = created (form_data formData) w
         /\ satisfies fold (whereClause s f) x = true))
  /\ appears (created (form_data formData) w)
       (getServices fold None (FilterActive.make "all") (snd (createService formData w))).
Proof.
  intros H Hw.
  assert (Hw' : reachable (snd (createService formData w)) = true).
  { rewrite (createService_stored _ _ H Hw). exact Hw. }
  assert (S : services (snd (createService formData w)) =
              (services w ++ [created (form_data formData) w])%list).
  { rewrite (createService_stored _ _ H Hw). reflexivity. }
  split.
  - rewrite !appears_iff by assumption. rewrite S, in_app_iff. simpl.
    intuition (subst; auto).
  - apply appears_iff; [exact Hw'|]. rewrite S, in_app_iff. simpl. auto.
Qed.

(** X7. The status filter is compared as text with "all" and "true" only:
    any other value, "false" or not, lists exactly what "false" lists, the
    inactive records; a value that differs from "all" or "true" in case is
    such a value. *)
Theorem getServices_other_status (s : JS.nullable) (f : string) (w : World) :
  f <> "all" -> f <> "true" ->
  getServices fold s (FilterActive.make f) w
  = getServices fold s (FilterActive.make "false") w
  /\ (forall r, appears r (getServices fold s (FilterActive.make f) w) ->
                isActive r = false).
Proof.
  intros Na Nt.
  assert (E : whereClause s (FilterActive.make f) = whereClause s (FilterActive.make "false")).
  { unfold whereClause. cbn [FilterActive.isActive].
    apply String.eqb_neq in Na, Nt. rewrite Na, Nt. reflexivity. }
  split.
  - unfold getServices. rewrite E. reflexivity.
  - intros r [l [El Hin]]. destruct (reachable w) eqn:Hw.
    + rewrite getServices_reachable in El by exact Hw. injection El as <-.
      apply orderBy_In, filter_In in Hin as [_ Hs].
      rewrite E in Hs. unfold satisfies, whereClause in Hs.
      cbn in Hs. apply andb_true_iff in Hs as [Hs _].
      destruct (isActive r); [discriminate | reflexivity].
    + rewrite getServices_unreachable in El by exact Hw.
      injection El as <-. destruct Hin.
Qed.

(** X8. Two search terms that are not blank and fold to the same text
    (such as a word in upper and in lower case) give the same result. *)
Theorem getServices_case_of_term (s s' : string) (f : FilterActive.t) (w : World) :
  whitespace_only s = false ->
  whitespace_only s' = false ->
  foldCase fold s = foldCase fold s' ->
  getServices fold (Some s) f w = getServices fold (Some s') f w.
Proof.
  intros Hs Hs' E.
  assert (T : forall t, whitespace_only t = false ->
            JS.truthy (Some t) && negb (String.eqb (JS.trim (as_string (Some t))) "") = true).
  { intros t Ht. apply not_false_is_true. intros F.
    apply no_text_iff in F. destruct F as [F | [F | [t' [F Ft]]]]; try discriminate.
    - injection F as ->. discriminate.
    - injection F as <-. congruence. }
  assert (Q : forall r, satisfies fold (whereClause (Some s) f) r
                        = satisfies fold (whereClause (Some s') f) r).
  { intros r. unfold satisfies, whereClause. cbn [where_isActive where_OR].
    rewrite (T s Hs), (T s' Hs'). cbn [existsb field_matches as_string].
    unfold contains_insensitive. rewrite E. reflexivity. }
  unfold getServices, try_catch, bind, prisma_service_findMany.
  destruct (reachable w); [|reflexivity].
  rewrite (filter_ext _ _ Q). reflexivity.
Qed.

(** X9. [getServices] only reads: it leaves the collection and the
    invalidation log as they were (when the store answers, the whole
    world), every record it lists is a stored one, and it lists no record
    twice unless the collection holds it twice. *)
Theorem getServices_only_reads (s : JS.nullable) (f : FilterActive.t) (w : World) :
  untouched w (snd (getServices fold s f w))
  /\ (reachable w = true -> snd (getServices fold s f w) = w)
  /\ (forall r, appears r (getServices fold s f w) -> In r (services w))
  /\ (forall l, fst (getServices fold s f w) = Normal l ->
                NoDup (services w) -> NoDup l).
Proof.
  destruct (reachable w) eqn:Hw.
  - rewrite getServices_reachable by exact Hw. cbn [fst snd].
    split; [repeat split|]. split; [reflexivity|]. split.
    + intros r [l [E Hin]]. injection E as <-.
      apply orderBy_In, filter_In in Hin. tauto.
    + intros l E Hn. injection E as <-.
      eapply Permutation_NoDup; [apply orderBy_perm|].
      apply NoDup_filter, Hn.
  - split; [|split; [discriminate|split]].
    + unfold getServices, try_catch, bind, prisma_service_findMany, untouched.
      rewrite Hw. simpl. auto.
    + intros r [l [E Hin]]. rewrite getServices_unreachable in E by exact Hw.
      injection E as <-. destruct Hin.
    + intros l E _. rewrite getServices_unreachable in E by exact Hw.
      injection E as <-. constructor.
Qed.

End Listing.

(* ----------------------------------------------------------------- *)
(** ** The price text *)

Ltac by_code_unit c :=
  destruct c as [[] [] [] [] [] [] [] []]; try discriminate; try reflexivity.





Lemma parseFloat_blank (p : string) :
  whitespace_only p = true -> JS.parseFloat p = JS.NaN.
Proof.
  intros H. apply trimStart_blank in H. unfold JS.parseFloat. rewrite H. reflexivity.
Qed.

Lemma parseFloat_other_lead (c : ascii) (r : string) :
  numeric_lead c = false -> JS.parseFloat (String c r) = JS.NaN.
Proof.
  intros H. unfold JS.parseFloat.
  assert (Hw : JS.isWhiteSpace c = false) by (by_code_unit c).
  cbn [JS.trimStart]. rewrite Hw.
  assert (Hs : JS.readSign (String c r) = (false, String c r)) by (by_code_unit c).
  assert (Hp : String.prefix "Infinity" (String c r) = false) by (by_code_unit c).
  assert (Hd : JS.isDigit c = false) by (by_code_unit c).
  rewrite Hs, Hp. cbn [JS.spanDigits]. rewrite Hd.
  by_code_unit c.
Qed.


(** X11. A price text that is empty or blank, or whose first code unit is
    none of white space, a sign, a digit, a dot and [I] (a currency sign,
    a letter), makes [createService] and [updateService] answer with the
    validation error and write nothing. *)
Theorem price_without_number_rejected
  (formData : FormData) (i : ObjectId) (w : World) (p : string) :
  FormData_get "price" formData = Some p ->
  whitespace_only p = true
  \/ (exists c r, p = String c r /\ numeric_lead c = false) ->
  createService formData w = (Normal (ErrorObject validation_message), w)
  /\ updateService i formData w = (Normal (ErrorObject validation_message), w).
Proof.
  intros Hp H.
  assert (I : invalid_form formData).
  { right; right. rewrite Hp. cbn [JS.ToString].
    destruct H as [H | [c [r [-> H]]]].
    - apply parseFloat_blank, H.
    - apply parseFloat_other_lead, H. }
  split; [apply createService_invalid | apply updateService_invalid]; exact I.
Qed.

(* ----------------------------------------------------------------- *)
(** ** The dialog *)

Lemma action_completes (service : option Service) (formData : FormData) (w : World) :
  exists reply,
    fst (match service with
         | Some s => updateService (id s) formData
         | None => createService formData
         end w) = Normal reply
    /\ (reply = Undefined \/ exists e, reply = ErrorObject e).
Proof.
  destruct service as [s |].
  - destruct (updateService_settles (id s) formData w) as [[E _] | [e [E _]]]; eauto.
  - destruct (createService_settles formData w) as [[E _] | [e [E _]]]; eauto.
Qed.

Lemma flag_round_trip (b : bool) :
  JS.strict_eq (Some (Boolean_toString b)) "true" = b.
Proof. destruct b; reflexivity. Qed.

(** X12. [handleSubmit] leaves the dialog closed, not loading, and with
    its fields cleared whatever the action resolved to: the reply is not
    looked at, so after a validation error or a failed write the dialog
    closes and the input is gone all the same. With an empty name nothing
    is written and the dialog still closes. *)
Theorem handleSubmit_always_closes
  (service : option Service) (st : ServiceForm.State) (w : World) :
  fst (ServiceForm.handleSubmit service st w)
  = ServiceForm.mkState false false ServiceForm.cleared
  /\ (ServiceForm.name (ServiceForm.formData st) = "" ->
      untouched w (snd (ServiceForm.handleSubmit service st w))).
Proof.
  unfold ServiceForm.handleSubmit. cbn [ServiceForm.formData ServiceForm.open ServiceForm.isLoading].
  destruct (action_completes service (ServiceForm.form (ServiceForm.formData st)) w)
    as [reply [E _]].
  split.
  - destruct (match service with
              | Some s => updateService (id s) (ServiceForm.form (ServiceForm.formData st))
              | None => createService (ServiceForm.form (ServiceForm.formData st))
              end w) as [[a | e] w']; [reflexivity | discriminate].
  - intros Hn.
    assert (I : invalid_form (ServiceForm.form (ServiceForm.formData st))).
    { left. right. simpl. rewrite Hn. reflexivity. }
    destruct service as [s |].
    + rewrite (updateService_invalid _ _ _ I). repeat split.
    + rewrite (createService_invalid _ _ I). repeat split.
Qed.

(** X13. Submitting the dialog for a new service, with name and
    description not empty and a price text that parses, against a store
    that answers, stores one record whose text fields are those of the
    dialog, whose price is the parsed price text, and whose [isActive] and
    [isFeatured] are the two switches: the booleans survive their way
    through the form as "true"/"false". *)
Theorem handleSubmit_creates (st : ServiceForm.State) (w : World) :
  let f := ServiceForm.formData st in
  ServiceForm.name f <> "" ->
  ServiceForm.description f <> "" ->
  JS.parseFloat (ServiceForm.price f) <> JS.NaN ->
  reachable w = true ->
  services (snd (ServiceForm.handleSubmit None st w)) =
  (services w ++
   [mkService (next_oid w) (ServiceForm.name f) (ServiceForm.description f)
              (JS.parseFloat (ServiceForm.price f))
              (ServiceForm.isActive f) (ServiceForm.isFeatured f)
              (clock w) (clock w)])%list.
Proof.
  intros f Hn Hd Hp Hw.
  assert (V : ~ invalid_form (ServiceForm.form f)).
  { intros [[I | I] | [[I | I] | I]]; simpl in I; try discriminate; try congruence. }
  unfold ServiceForm.handleSubmit. cbn [ServiceForm.formData]. fold f.
  rewrite (createService_stored _ _ V Hw). cbn [snd services].
  unfold created, form_data, ServiceForm.form.
  cbn [FormData_get String.eqb Ascii.eqb Bool.eqb as_string JS.ToString
       d_name d_description d_price d_isActive d_isFeatured].
  rewrite !flag_round_trip. reflexivity.
Qed.

(** X14. Submitting the dialog for an existing service ([service] is the
    record [getService] finds under its id), with fields that pass the
    guard, overwrites that record: afterwards [getService] yields it with
    the dialog's text fields, parsed price and switches, the same
    [createdAt], and [updatedAt] at the time of the request. *)
Theorem handleSubmit_updates (service : Service) (st : ServiceForm.State) (w : World) :
  let f := ServiceForm.formData st in
  ServiceForm.name f <> "" ->
  ServiceForm.description f <> "" ->
  JS.parseFloat (ServiceForm.price f) <> JS.NaN ->
  fst (getService (id service) w) = Normal (Document service) ->
  fst (getService (id service) (snd (ServiceForm.handleSubmit (Some service) st w)))
  = Normal (Document
      (mkService (id service) (ServiceForm.name f) (ServiceForm.description f)
                 (JS.parseFloat (ServiceForm.price f))
                 (ServiceForm.isActive f) (ServiceForm.isFeatured f)
                 (createdAt service) (clock w))).
Proof.
  intros f Hn Hd Hp G.
  assert (V : ~ invalid_form (ServiceForm.form f)).
  { intros [[I | I] | [[I | I] | I]]; simpl in I; try discriminate; try congruence. }
  assert (Hw : reachable w = true).
  { destruct (reachable w) eqn:Hw; [reflexivity|].
    unfold getService, try_catch, bind, prisma_service_findUnique in G.
    rewrite Hw in G. discriminate. }
  assert (E : find (has_id (id service)) (services w) = Some service).
  { rewrite (getService_reachable _ w Hw) in G.
    destruct (find (has_id (id service)) (services w)); [|discriminate].
    injection G as <-. reflexivity. }
  destruct (updateService_stored (id service) (ServiceForm.form f) w service V Hw E)
    as [U [Hw' S]].
  assert (W : snd (ServiceForm.handleSubmit (Some service) st w)
              = snd (updateService (id service) (ServiceForm.form f) w)).
  { unfold ServiceForm.handleSubmit. cbn [ServiceForm.formData]. fold f.
    destruct (updateService (id service) (ServiceForm.form f) w) as [[a | e] w'];
      [reflexivity | discriminate]. }
  rewrite W, (getService_reachable _ _ Hw'), S, find_overwritten, E.
  cbn [option_map]. unfold has_id at 1. rewrite N.eqb_refl.
  unfold overwrite, form_data, ServiceForm.form.
  cbn [FormData_get String.eqb Ascii.eqb Bool.eqb as_string JS.ToString
       d_name d_description d_price d_isActive d_isFeatured].
  rewrite !flag_round_trip. reflexivity.
Qed.

(* ----------------------------------------------------------------- *)
(** ** The page *)

Section PageFacts.

Variable fold : ascii -> ascii.

(** X15. How the page reads [status] from the URL, with no [search]: a
    stored record is in the table exactly when [status] is absent, empty
    or "all"; or [status] is "true" and the record is active; or [status]
    is any other text and the record is inactive. The search term handed
    to [ServiceFilters] is the [search] parameter, or the empty text. *)
Theorem ServicesPage_status (q : Page.Params) (w : World) (r : Service) :
  reachable w = true ->
  In r (services w) ->
  Page.search q = None ->
  exists v,
    fst (Page.ServicesPage fold q w) = Normal v
    /\ Page.filters_searchTerm v = ""
    /\ (In r (Page.table v) <->
          (Page.status q = None \/ Page.status q = Some "" \/ Page.status q = Some "all")
          \/ (Page.status q = Some "true" /\ isActive r = true)
          \/ ((exists t, Page.status q = Some t /\ t <> "" /\ t <> "all" /\ t <> "true")
              /\ isActive r = false)).
Proof.
  intros Hw Hr Hs. unfold Page.ServicesPage, bind, ret. rewrite Hs.
  rewrite getServices_reachable by exact Hw.
  eexists. split; [reflexivity|]. split; [reflexivity|].
  cbn [Page.table]. rewrite orderBy_In, filter_In.
  unfold satisfies, whereClause.
  cbn [where_isActive where_OR FilterActive.isActive JS.truthy andb].
  assert (K : forall t : string,
            (exists t', Some t = Some t' /\ t' <> "" /\ t' <> "all" /\ t' <> "true")
            <-> (t <> "" /\ t <> "all" /\ t <> "true")).
  { intros t. split.
    - intros [t' [E H]]. injection E as <-. exact H.
    - intros H. exists t. auto. }
  destruct (Page.status q) as [[| c t] |]; cbn [JS.truthy as_string].
  - cbn. intuition.
  - rewrite K.
    destruct (String.eqb_spec (String c t) "all") as [Ea | Na]; cbn [negb].
    + rewrite Ea. intuition.
    + destruct (String.eqb_spec (String c t) "true") as [Et | Nt].
      * rewrite Et. destruct (isActive r); cbn;
          intuition (discriminate || congruence).
      * destruct (isActive r); cbn;
          intuition (discriminate || congruence).
  - cbn. intuition.
Qed.

End PageFacts.

(* ----------------------------------------------------------------- *)
(** ** The earlier revision *)

Section EarlierFacts.

Variable client_create : Earlier.Data -> Async Service.
Variable client_update : ObjectId -> Earlier.Data -> Async Service.

(** X16. In the earlier revision, where [redirect] is called inside the
    [try], [createService] and [updateService] resolve to an error object
    on every input, whatever the client does: when the write goes through
    and the tag has been invalidated, the redirect signal is caught and the
    reply is the "Failed to ..." object. *)
Theorem earlier_mutations_always_report_failure
  (formData : FormData) (i : ObjectId) (w : World) :
  (exists e, fst (Earlier.createService client_create formData w) = Normal (ErrorObject e))
  /\ (exists e, fst (Earlier.updateService client_update i formData w) = Normal (ErrorObject e))
  /\ (forall r w',
        JS.truthy (FormData_get "name" formData) = true ->
        JS.truthy (FormData_get "description" formData) = true ->
        JS.truthy (FormData_get "price" formData) = true ->
        client_create
          (Earlier.mkData (FormData_get "name" formData)
                          (FormData_get "description" formData)
                          (FormData_get "price" formData)
                          (FormData_get "isActive" formData)
                          (FormData_get "isFeatured" formData)) w = (Normal r, w') ->
        fst (Earlier.createService client_create formData w)
          = Normal (ErrorObject "Failed to create service")
        /\ services (snd (Earlier.createService client_create formData w)) = services w'
        /\ revalidated (snd (Earlier.createService client_create formData w))
           = (revalidated w' ++ [Tag "services"])%list).
Proof.
  unfold Earlier.createService, Earlier.updateService.
  split; [|split].
  - destruct (negb _ || negb _ || negb _); [eexists; reflexivity|].
    unfold try_catch, bind, Earlier.redirect.
    destruct (client_create _ w) as [[r | e] w']; eexists; reflexivity.
  - destruct (negb _ || negb _ || negb _); [eexists; reflexivity|].
    unfold try_catch, bind, Earlier.redirect.
    destruct (client_update _ _ w) as [[r | e] w']; eexists; reflexivity.
  - intros r w' Hn Hd Hp E. rewrite Hn, Hd, Hp. cbn [negb orb].
    unfold try_catch, bind, Earlier.redirect. rewrite E. repeat split.
Qed.

End EarlierFacts.

(* ----------------------------------------------------------------- *)
(** ** Further properties of [ServiceFilters] *)

Module FiltersMore.
Import Filters FiltersFacts.

Lemma params_get_delete_other (name other : string) (p : URLSearchParams) :
  other <> name -> params_get other (params_delete name p) = params_get other p.
Proof.
  intros N. induction p as [| [k v] p IH]; simpl; [reflexivity|].
  destruct (String.eqb_spec k name) as [-> | Nk]; simpl.
  - destruct (String.eqb_spec name other); [congruence | exact IH].
  - destruct (String.eqb k other); [reflexivity | exact IH].
Qed.

Lemma params_get_set_other (name value other : string) (p : URLSearchParams) :
  other <> name -> params_get other (params_set name value p) = params_get other p.
Proof.
  intros N. induction p as [| [k v] p IH]; simpl.
  - destruct (String.eqb_spec name other); [congruence | reflexivity].
  - destruct (String.eqb_spec k name) as [-> | Nk]; simpl.
    + destruct (String.eqb_spec name other); [congruence|].
      apply params_get_delete_other. exact N.
    + destruct (String.eqb k other); [reflexivity | exact IH].
Qed.

Lemma occurrences_delete (name : string) (p : URLSearchParams) :
  occurrences name (params_delete name p) = 0%nat.
Proof.
  unfold occurrences, params_delete.
  rewrite (filter_none (fun kv => String.eqb (fst kv) name)); [reflexivity|].
  intros x Hx. apply filter_In in Hx as [_ Hx]. apply negb_true_iff. exact Hx.
Qed.

Lemma occurrences_set (name value : string) (p : URLSearchParams) :
  occurrences name (params_set name value p) = 1%nat.
Proof.
  unfold occurrences. induction p as [| [k v] p IH]; simpl.
  - rewrite String.eqb_refl. reflexivity.
  - destruct (String.eqb k name) eqn:E; simpl; rewrite E; simpl.
    + f_equal. apply occurrences_delete.
    + exact IH.
Qed.

(** X17. [createQueryString(name, value)] gives a query in which [name]
    holds [value], once, unless [value] is empty or "all": then [name] is
    not in the query. Every other parameter reads as in the current
    query. *)
Theorem createQueryString_params (p : URLSearchParams) (name value other : string) :
  params_get name (createQueryString p name value) =
    (if String.eqb value "" || String.eqb value "all" then None else Some value)
  /\ occurrences name (createQueryString p name value) =
    (if String.eqb value "" || String.eqb value "all" then 0 else 1)%nat
  /\ (other <> name ->
      params_get other (createQueryString p name value) = params_get other p).
Proof.
  unfold createQueryString.
  destruct (String.eqb value "" || String.eqb value "all").
  - split; [apply params_get_delete|].
    split; [apply occurrences_delete | apply params_get_delete_other].
  - split; [apply params_get_set|].
    split; [apply occurrences_set | apply params_get_set_other].
Qed.

Lemma search_effect_fields (now : Z) (c : Component) :
  localSearchTerm (search_effect now c) = localSearchTerm c
  /\ searchTerm (search_effect now c) = searchTerm c
  /\ searchParams (search_effect now c) = searchParams c
  /\ pushed (search_effect now c) = pushed c.
Proof. repeat split. Qed.

(** X18. When the active search term changes from outside (new props
    with another [searchTerm]), the input takes the new term, what was
    staged is dropped, and no timeout pushes afterwards, however long one
    waits, until the input changes again. *)
Theorem external_change_drops_staged
  (c : Component) (now : Z) (s : string) (p : URLSearchParams) :
  reaches c ->
  s <> searchTerm c ->
  localSearchTerm (step c (now, Props s p)) = s
  /\ searchTerm (step c (now, Props s p)) = s
  /\ searchParams (step c (now, Props s p)) = p
  /\ pushed (step c (now, Props s p)) = pushed (advance now c)
  /\ forall T, pushed (advance T (step c (now, Props s p))) = pushed (step c (now, Props s p)).
Proof.
  intros Hr N.
  assert (F : localSearchTerm (step c (now, Props s p)) = s
              /\ searchTerm (step c (now, Props s p)) = s
              /\ searchParams (step c (now, Props s p)) = p
              /\ pushed (step c (now, Props s p)) = pushed (advance now c)).
  { cbn [step]. unfold receive_props.
    destruct (advance_fields now c) as [A1 _].
    destruct (String.eqb_spec s (searchTerm (advance now c))) as [E | _];
      [congruence|].
    cbn [negb orb].
    match goal with
    | |- context [setLocalSearchTerm now s ?x] =>
        destruct (setLocal_fields now s x) as [H1 [H2 [H3 H4]]]
    end.
    rewrite H1, H2, H3, H4. repeat split. }
  destruct F as [F1 [F2 [F3 F4]]].
  repeat split; try assumption.
  intros T. apply advance_quiet, current_quiet.
  - apply (reaches_inv _ (reaches_step c (now, Props s p) Hr)).
  - congruence.
Qed.

Lemma fired_length (l : list Timeout) (c : Component) :
  (List.length (timeouts (fold_left (fun c t => fire t c) l c))
   <= List.length (timeouts c))%nat.
Proof.
  revert c. induction l as [| t l IH]; intros c; simpl; [lia|].
  eapply Nat.le_trans; [apply IH|].
  destruct (fire_fields t c) as [_ [_ [_ [_ F]]]]. rewrite F.
  apply filter_length_le.
Qed.

Lemma setLocal_one_pending (now : Z) (v : string) (c : Component) :
  owned c ->
  (List.length (timeouts c) <= 1)%nat ->
  (List.length (timeouts (setLocalSearchTerm now v c)) <= 1)%nat.
Proof.
  intros Ho H. unfold setLocalSearchTerm.
  destruct (String.eqb v (localSearchTerm c)); [exact H|].
  rewrite search_effect_timeouts by exact Ho. simpl. lia.
Qed.

(** X19. In every state the component reaches there is at most one
    timeout pending: the cleanup of the effect clears the one before. *)
Theorem at_most_one_pending (c : Component) :
  reaches c -> (List.length (timeouts c) <= 1)%nat.
Proof.
  intros Hr.
  assert (H : owned c /\ (List.length (timeouts c) <= 1)%nat).
  { induction Hr as [now s p | c e Hr [Ho Hl]].
    - split; [apply mount_inv|]. unfold mount.
      apply setLocal_one_pending.
      + apply search_effect_owned. intros t [].
      + rewrite search_effect_timeouts by (intros t []). simpl. lia.
    - split; [apply step_inv; [exact Ho | apply (reaches_inv _ Hr)]|].
      assert (Ha : (List.length (timeouts (advance (fst e) c)) <= 1)%nat).
      { eapply Nat.le_trans; [apply fired_length | exact Hl]. }
      pose proof (advance_owned (fst e) c Ho) as Hoa.
      destruct e as [now [v | s p | v]]; cbn [step fst] in *.
      + apply setLocal_one_pending; assumption.
      + unfold receive_props.
        set (c1 := mkComponent s p (localSearchTerm (advance now c))
                               (timeouts (advance now c)) (cleanup (advance now c))
                               (next_timeoutId (advance now c)) (pushed (advance now c))).
        assert (Ho1 : owned c1) by exact Hoa.
        assert (Hl1 : (List.length (timeouts c1) <= 1)%nat) by exact Ha.
        assert (He : (List.length (timeouts (search_effect now c1)) <= 1)%nat).
        { rewrite search_effect_timeouts by exact Ho1. simpl. lia. }
        destruct (negb (String.eqb s (searchTerm (advance now c)))) eqn:Et; cbn [orb].
        * apply setLocal_one_pending; [apply search_effect_owned, Ho1 | exact He].
        * destruct (negb (params_eqb p (searchParams (advance now c)))); assumption.
      + exact Ha. }
  apply H.
Qed.

Lemma armed_idle (P : list Push) (t now : Z) (v s : string) (p : URLSearchParams)
                 (c : Component) :
  armed P t v s p c -> now < t + 1500 -> advance now c = c.
Proof.
  intros [_ [_ [_ [_ [_ [i Hi]]]]]] Hn. unfold advance. rewrite Hi. cbn [filter due].
  destruct (Z.leb_spec (t + 1500) now); [lia | reflexivity].
Qed.

Lemma armed_typed (P : list Push) (t t' : Z) (v v' s : string) (p : URLSearchParams)
                  (c : Component) :
  armed P t v s p c ->
  t' < t + 1500 -> v' <> v ->
  armed P t' v' s p (step c (t', Typed v')).
Proof.
  intros A Ht Hv. pose proof (armed_idle P t t' v s p c A Ht) as Hi.
  destruct A as [Ho [L [S [Q [U _]]]]].
  cbn [step]. rewrite Hi. unfold handleSearchChange.
  destruct (setLocal_fields t' v' c) as [H1 [H2 [H3 H4]]].
  split; [apply setLocal_owned, Ho|].
  split; [exact H1|]. split; [congruence|]. split; [congruence|]. split; [congruence|].
  exists (next_timeoutId c).
  rewrite setLocal_changed by (exact Ho || congruence).
  unfold delay. rewrite S, Q. reflexivity.
Qed.

Lemma armed_burst (P : list Push) (s : string) (p : URLSearchParams)
                  (rest : list (Z * string)) :
  forall (t : Z) (v : string) (c : Component),
    armed P t v s p c ->
    burst t v rest ->
    armed P (fst (last_change t v rest)) (snd (last_change t v rest)) s p
          (run (typed rest) c).
Proof.
  induction rest as [| [t' v'] rest IH]; intros t v c A B.
  - exact A.
  - destruct B as [_ [Ht [Hv B]]]. cbn [typed map run fold_left last_change fst snd].
    apply (IH t' v'); [|exact B].
    apply (armed_typed P t t' v v' s p c A); [unfold delay in Ht; exact Ht | exact Hv].
Qed.

Lemma mount_then_typed (t0 t1 : Z) (s0 v1 : string) (p : URLSearchParams) :
  v1 <> s0 -> armed [] t1 v1 s0 p (step (mount t0 s0 p) (t1, Typed v1)).
Proof.
  intros N.
  destruct (mount_inv t0 s0 p) as [Ho Hc].
  destruct (mount_fields t0 s0 p) as [L [S [Q U]]].
  assert (Hq : quiet_until t1 (mount t0 s0 p)).
  { apply current_quiet; [exact Hc | congruence]. }
  destruct (typed_step t1 t1 v1 _ Ho Hc Hq) as [Ho1 [_ [_ [L1 [S1 [Q1 U1]]]]]];
    [lia | unfold delay; lia |].
  split; [exact Ho1|]. split; [exact L1|].
  split; [congruence|]. split; [congruence|]. split; [congruence|].
  destruct (typed_reschedules t1 v1 _ Ho) as [i Hi]; [congruence|].
  exists i. rewrite Hi, S, Q. reflexivity.
Qed.

Lemma armed_fires (P : list Push) (t T : Z) (v s : string) (p : URLSearchParams)
                  (c : Component) :
  armed P t v s p c ->
  pushed (advance T c) =
  (P ++ if (t + 1500 <=? T) && negb (String.eqb v s)
        then [mkPush (t + 1500) (createQueryString p "search" v)]
        else [])%list.
Proof.
  intros [_ [_ [_ [_ [U [i Hi]]]]]]. unfold advance. rewrite Hi. cbn [filter due].
  destruct (t + 1500 <=? T); cbn [fold_left andb].
  - rewrite fire_pushed, U. cbn [seen_local seen_searchTerm seen_params due].
    reflexivity.
  - rewrite U, app_nil_r. reflexivity.
Qed.

(** X20. After a first render with active term [s0], let the input change
    any number of times, the first change away from [s0], each later
    change a change of the value made less than 1500 ms after the one
    before. Then at any later time exactly one push has been made if
    1500 ms have passed since the last change and the value then staged
    differs from [s0], at 1500 ms after the last change and built from
    that value; otherwise none has been made. *)
Theorem debounce_burst (t0 : Z) (s0 : string) (p : URLSearchParams)
                       (t1 : Z) (v1 : string) (rest : list (Z * string)) (T : Z) :
  v1 <> s0 ->
  burst t1 v1 rest ->
  pushed (advance T (run (typed ((t1, v1) :: rest)) (mount t0 s0 p))) =
  if (fst (last_change t1 v1 rest) + 1500 <=? T)
     && negb (String.eqb (snd (last_change t1 v1 rest)) s0)
  then [mkPush (fst (last_change t1 v1 rest) + 1500)
               (createQueryString p "search" (snd (last_change t1 v1 rest)))]
  else [].
Proof.
  intros N B.
  change (run (typed ((t1, v1) :: rest)) (mount t0 s0 p))
    with (run (typed rest) (step (mount t0 s0 p) (t1, Typed v1))).
  pose proof (mount_then_typed t0 t1 s0 v1 p N) as A.
  pose proof (armed_burst [] s0 p rest t1 v1 _ A B) as A'.
  rewrite (armed_fires [] _ T _ s0 p _ A'). reflexivity.
Qed.

(** X21. A search value is staged and, before its 1500 ms are over, a
    status is selected; no new props arrive before the timeout is due.
    Then the status is pushed at once, and at 1500 ms after the change of
    the input the staged value is pushed as well, in a query built from
    the parameters of the render that set the timeout: its [status] is the
    one the URL had before, not the one just selected. *)
Theorem staged_search_pushes_old_status
  (c0 : Component) (t0 t1 T : Z) (v f : string) :
  reaches c0 ->
  localSearchTerm c0 = searchTerm c0 ->
  v <> searchTerm c0 ->
  t0 <= t1 -> t1 < t0 + 1500 -> t0 + 1500 <= T ->
  pushed (advance T (run [(t0, Typed v); (t1, Status f)] c0)) =
    (pushed c0 ++
     [mkPush t1 (createQueryString (searchParams c0) "status" f);
      mkPush (t0 + 1500) (createQueryString (searchParams c0) "search" v)])%list
  /\ params_get "status" (createQueryString (searchParams c0) "search" v)
     = params_get "status" (searchParams c0).
Proof.
  intros Hr E N H01 H1 HT.
  destruct (reaches_inv c0 Hr) as [Ho Hc].
  assert (Hq : quiet_until t0 c0) by (apply current_quiet; assumption).
  assert (A : armed (pushed c0) t0 v (searchTerm c0) (searchParams c0)
                    (step c0 (t0, Typed v))).
  { destruct (typed_step t0 t0 v _ Ho Hc Hq) as [Ho1 [_ [_ [L1 [S1 [Q1 U1]]]]]];
      [lia | unfold delay; lia |].
    split; [exact Ho1|]. repeat (split; [assumption|]).
    destruct (typed_reschedules t0 v _ Ho) as [i Hi]; [congruence|].
    exists i. exact Hi. }
  split.
  - cbn [run fold_left].
    set (c1 := step c0 (t0, Typed v)) in *.
    assert (A2 : armed (pushed c0 ++ [mkPush t1 (createQueryString (searchParams c0) "status" f)])
                       t0 v (searchTerm c0) (searchParams c0) (step c1 (t1, Status f))).
    { cbn [step]. rewrite (armed_idle _ _ t1 _ _ _ _ A H1).
      destruct A as [Ho1 [L1 [S1 [Q1 [U1 [i Hi]]]]]].
      unfold handleStatusChange, armed.
      cbn [localSearchTerm searchTerm searchParams pushed timeouts].
      split; [exact Ho1|]. split; [exact L1|]. split; [exact S1|].
      split; [exact Q1|]. split; [rewrite U1, Q1; reflexivity|].
      exists i. exact Hi. }
    rewrite (armed_fires _ _ T _ _ _ _ A2).
    destruct (Z.leb_spec (t0 + 1500) T); [|lia].
    apply String.eqb_neq in N. rewrite N. cbn [andb negb].
    rewrite <- app_assoc. reflexivity.
  - unfold createQueryString.
    destruct (String.eqb v "" || String.eqb v "all");
      [apply params_get_delete_other | apply params_get_set_other]; discriminate.
Qed.

End FiltersMore.

(* ================================================================= *)
(** * The further properties on sample inputs *)

Lemma getService_replies_witness :
  In web_design (services two_services)
  /\ id web_design = 1%N
  /\ reachable two_services = true
  /\ exists r', fst (getService 1%N two_services) = Normal (Document r') /\ id r' = 1%N.
Proof.
  destruct (getService_replies 1%N two_services) as [_ [_ [_ [H _]]]].
  split; [simpl; auto|]. split; [reflexivity|]. split; [reflexivity|].
  apply (H web_design); [simpl; auto | reflexivity | reflexivity].
Defined.

Lemma updateService_then_getService_witness :
  ~ invalid_form web_form
  /\ fst (getService 0%N two_services) = Normal (Document consulting)
  /\ fst (updateService 0%N web_form two_services) = Normal Undefined.
Proof.
  assert (V : ~ invalid_form web_form) by (apply valid_by_guard; reflexivity).
  split; [exact V|]. split; [reflexivity|].
  apply (updateService_then_getService 0%N web_form two_services consulting V eq_refl).
Defined.

Lemma updateService_missing_id_witness :
  ~ invalid_form consulting_form
  /\ (forall r, In r (services two_services) -> id r <> 7%N)
  /\ fst (updateService 7%N consulting_form two_services)
     = Normal (ErrorObject "Failed to update service").
Proof.
  assert (V : ~ invalid_form consulting_form) by (apply valid_by_guard; reflexivity).
  assert (A : forall r, In r (services two_services) -> id r <> 7%N).
  { intros r [<- | [<- | []]]; discriminate. }
  split; [exact V|]. split; [exact A|].
  apply (updateService_missing_id 7%N consulting_form two_services V A).
Defined.

Lemma deleteService_then_reads_witness :
  fst (deleteService 1%N two_services) = Normal Undefined
  /\ fst (getService 1%N (snd (deleteService 1%N two_services))) = Normal Null.
Proof.
  split; [reflexivity|].
  apply (deleteService_then_reads ascii_lower 1%N two_services eq_refl).
Defined.

Lemma createService_then_getServices_witness :
  ~ invalid_form web_form
  /\ reachable (snd (createService consulting_form world0)) = true
  /\ appears web_design
       (getServices ascii_lower None (FilterActive.make "all") two_services).
Proof.
  assert (V : ~ invalid_form web_form) by (apply valid_by_guard; reflexivity).
  split; [exact V|]. split; [reflexivity|].
  apply (createService_then_getServices ascii_lower web_form
           (snd (createService consulting_form world0)) None
           (FilterActive.make "all") web_design V eq_refl).
Defined.

Lemma getServices_other_status_witness :
  "TRUE" <> "all" /\ "TRUE" <> "true"
  /\ getServices ascii_lower None (FilterActive.make "TRUE") two_services
     = getServices ascii_lower None (FilterActive.make "false") two_services.
Proof.
  assert (Na : "TRUE" <> "all") by discriminate.
  assert (Nt : "TRUE" <> "true") by discriminate.
  split; [exact Na|]. split; [exact Nt|].
  apply (getServices_other_status ascii_lower None "TRUE" two_services Na Nt).
Defined.

Lemma getServices_case_of_term_witness :
  whitespace_only "WEB" = false
  /\ whitespace_only "web" = false
  /\ foldCase ascii_lower "WEB" = foldCase ascii_lower "web"
  /\ getServices ascii_lower (Some "WEB") (FilterActive.make "all") two_services
     = getServices ascii_lower (Some "web") (FilterActive.make "all") two_services.
Proof.
  split; [reflexivity|]. split; [reflexivity|]. split; [reflexivity|].
  apply (getServices_case_of_term ascii_lower "WEB" "web" (FilterActive.make "all")
           two_services eq_refl eq_refl eq_refl).
Defined.

Lemma getServices_only_reads_witness :
  reachable two_services = true
  /\ snd (getServices ascii_lower (Some "web") (FilterActive.make "true") two_services)
     = two_services.
Proof.
  split; [reflexivity|].
  destruct (getServices_only_reads ascii_lower (Some "web") (FilterActive.make "true")
              two_services) as [_ [H _]].
  apply H. reflexivity.
Defined.


Lemma price_without_number_rejected_witness :
  FormData_get "price" [("name", "A"); ("description", "B"); ("price", "$10")]
    = Some "$10"
  /\ numeric_lead "$"%char = false
  /\ createService [("name", "A"); ("description", "B"); ("price", "$10")] world0
     = (Normal (ErrorObject validation_message), world0).
Proof.
  split; [reflexivity|]. split; [reflexivity|].
  apply (price_without_number_rejected
           [("name", "A"); ("description", "B"); ("price", "$10")] 0%N world0 "$10"
           eq_refl).
  right. exists "$"%char, "10". split; reflexivity.
Defined.

Lemma handleSubmit_always_closes_witness :
  untouched world0
    (snd (ServiceForm.handleSubmit None
            (ServiceForm.mkState true false (ServiceForm.mkFields "" "x" "10" true false))
            world0))
  /\ fst (ServiceForm.handleSubmit None
            (ServiceForm.mkState true false (ServiceForm.mkFields "" "x" "10" true false))
            world0)
     = ServiceForm.mkState false false ServiceForm.cleared.
Proof.
  destruct (handleSubmit_always_closes None
              (ServiceForm.mkState true false (ServiceForm.mkFields "" "x" "10" true false))
              world0) as [H1 H2].
  split; [apply H2; reflexivity | exact H1].
Defined.

Lemma handleSubmit_creates_witness :
  services (snd (ServiceForm.handleSubmit None
                   (ServiceForm.mkState true false
                      (ServiceForm.mkFields "Consulting" "1hr session" "99.50" true false))
                   world0))
  = [consulting].
Proof.
  apply (handleSubmit_creates
           (ServiceForm.mkState true false
              (ServiceForm.mkFields "Consulting" "1hr session" "99.50" true false))
           world0); (discriminate || reflexivity).
Defined.

Lemma handleSubmit_updates_witness :
  fst (getService 0%N two_services) = Normal (Document consulting)
  /\ fst (getService 0%N
            (snd (ServiceForm.handleSubmit (Some consulting)
                    (ServiceForm.mkState true false
                       (ServiceForm.mkFields "Coaching" "2hr session" "150" false true))
                    two_services)))
     = Normal (Document
         (mkService 0%N "Coaching" "2hr session" (JS.Decimal false 150 0) false true 0 0)).
Proof.
  split; [reflexivity|].
  apply (handleSubmit_updates consulting
           (ServiceForm.mkState true false
              (ServiceForm.mkFields "Coaching" "2hr session" "150" false true))
           two_services); (discriminate || reflexivity).
Defined.

Lemma ServicesPage_status_witness :
  reachable two_services = true
  /\ In web_design (services two_services)
  /\ exists v,
       fst (Page.ServicesPage ascii_lower (Page.mkParams None (Some "inactive")) two_services)
         = Normal v
       /\ In web_design (Page.table v).
Proof.
  split; [reflexivity|]. split; [simpl; auto|].
  destruct (ServicesPage_status ascii_lower (Page.mkParams None (Some "inactive"))
              two_services web_design eq_refl) as [v [E [_ H]]];
    [simpl; auto | reflexivity |].
  exists v. split; [exact E|]. apply H. right. right.
  split; [|reflexivity]. exists "inactive". repeat split; discriminate.
Defined.

Lemma earlier_mutations_always_report_failure_witness :
  fst (Earlier.createService (fun _ w => (Normal consulting, w)) consulting_form world0)
  = Normal (ErrorObject "Failed to create service").
Proof.
  destruct (earlier_mutations_always_report_failure
              (fun _ w => (Normal consulting, w))
              (fun _ _ w => (Normal consulting, w))
              consulting_form 0%N world0) as [_ [_ H]].
  apply (H consulting world0); reflexivity.
Defined.

Lemma createQueryString_params_witness :
  "status" <> "search"
  /\ Filters.params_get "status"
       (Filters.createQueryString [("status", "true"); ("search", "web")] "search" "")
     = Some "true".
Proof.
  assert (N : "status" <> "search") by discriminate.
  split; [exact N|].
  destruct (FiltersMore.createQueryString_params
              [("status", "true"); ("search", "web")] "search" "" "status") as [_ [_ H]].
  apply H. exact N.
Defined.

Lemma external_change_drops_staged_witness :
  Filters.localSearchTerm
    (Filters.step (Filters.step (Filters.mount 0 "" []) (0, Filters.Typed "web"))
                  (100, Filters.Props "design" [("search", "design")]))
  = "design"
  /\ Filters.pushed
       (Filters.advance 5000
          (Filters.step (Filters.step (Filters.mount 0 "" []) (0, Filters.Typed "web"))
                        (100, Filters.Props "design" [("search", "design")])))
     = [].
Proof.
  destruct (FiltersMore.external_change_drops_staged
              (Filters.step (Filters.mount 0 "" []) (0, Filters.Typed "web"))
              100 "design" [("search", "design")]) as [H1 [_ [_ [_ H5]]]].
  - apply Filters.reaches_step, Filters.reaches_mount.
  - discriminate.
  - split; [exact H1 | exact (H5 5000)].
Defined.

Lemma at_most_one_pending_witness :
  Nat.le
    (List.length
       (Filters.timeouts
          (Filters.run [(0, Filters.Typed "w"); (200, Filters.Status "true");
                        (300, Filters.Typed "we")]
                       (Filters.mount 0 "" []))))
    1.
Proof.
  apply FiltersMore.at_most_one_pending.
  repeat apply Filters.reaches_step. apply Filters.reaches_mount.
Defined.

Lemma debounce_burst_witness :
  "w" <> ""
  /\ burst 0 "w" [(500, "we"); (1000, "web"); (2400, "webs")]
  /\ Filters.pushed
       (Filters.advance 3900
          (Filters.run (typed [(0, "w"); (500, "we"); (1000, "web"); (2400, "webs")])
                       (Filters.mount 0 "" [])))
     = [Filters.mkPush 3900 [("search", "webs")]].
Proof.
  assert (N : "w" <> "") by discriminate.
  assert (B : burst 0 "w" [(500, "we"); (1000, "web"); (2400, "webs")]).
  { unfold burst, Filters.delay.
    repeat split; (lia || discriminate). }
  split; [exact N|]. split; [exact B|].
  apply (FiltersMore.debounce_burst 0 "" [] 0 "w"
           [(500, "we"); (1000, "web"); (2400, "webs")] 3900 N B).
Defined.

Lemma staged_search_pushes_old_status_witness :
  Filters.pushed
    (Filters.advance 1500
       (Filters.run [(0, Filters.Typed "web"); (500, Filters.Status "true")]
                    (Filters.mount 0 "" [("status", "false")])))
  = [Filters.mkPush 500 [("status", "true")];
     Filters.mkPush 1500 [("status", "false"); ("search", "web")]].
Proof.
  destruct (FiltersMore.staged_search_pushes_old_status
              (Filters.mount 0 "" [("status", "false")]) 0 500 1500 "web" "true")
    as [H _].
  - apply Filters.reaches_mount.
  - reflexivity.
  - discriminate.
  - lia.
  - lia.
  - lia.
  - exact H.
Defined.
